From Stdlib Require Import ZArith NArith String Ascii List.
From stdpp Require Import gmap list sorting.

(** Two-way reconciliation of a database export against a CDISC export
    ([compare_records.py]): the helpers [norm] and [norm_id], and [main].

    The two frames that [main] reads with
    [pd.read_csv(..., dtype=str).fillna("")] are its inputs here; what it
    writes with [to_csv], logs and prints is kept in a [World].  Formatted
    messages are kept as constructors holding the values they interpolate,
    and the progress bars are left out. *)

(** * Strings: Python [str] as a list of Unicode code points *)

Abbreviation str := (list N).

Fixpoint lit (s : string) : str :=
  match s with
  | EmptyString => []
  | String a t => N_of_ascii a :: lit t
  end.

Arguments lit : simpl never.

Notation "$ s" := (lit s) (at level 1, s at level 0, format "$ s").

(** [str.isspace] on one code point; [str.strip] and the regular
    expression class [\s] both test this set. *)
Definition isspace (c : N) : bool :=
  ((9 <=? c) && (c <=? 13) || (28 <=? c) && (c <=? 32)
   || (c =? 133) || (c =? 160) || (c =? 5760)
   || (8192 <=? c) && (c <=? 8202)
   || (c =? 8232) || (c =? 8233) || (c =? 8239) || (c =? 8287)
   || (c =? 12288))%N.

Fixpoint lstrip (s : str) : str :=
  match s with
  | [] => []
  | c :: t => if isspace c then lstrip t else s
  end.

Definition rstrip (s : str) : str := rev (lstrip (rev s)).

(** [s.strip()] *)
Definition strip (s : str) : str := rstrip (lstrip s).

(** [re.sub(r"\s+", " ", s)]: a left-to-right scan; [in_run] says that the
    previous character belonged to a whitespace run already replaced. *)
Fixpoint sub_ws_run (in_run : bool) (s : str) : str :=
  match s with
  | [] => []
  | c :: t =>
      if isspace c
      then (if in_run then sub_ws_run true t else 32%N :: sub_ws_run true t)
      else c :: sub_ws_run false t
  end.

Definition re_sub_ws (s : str) : str := sub_ws_run false s.

(** [s.endswith(suffix)] and [s[:-2]] *)
Definition endswith (s suffix : str) : bool :=
  bool_decide (length suffix ≤ length s) &&
  bool_decide (drop (length s - length suffix) s = suffix).

Definition drop_last2 (s : str) : str := take (length s - 2) s.

(** Python string comparison: lexicographic on code points. *)
Fixpoint str_leb (a b : str) : bool :=
  match a, b with
  | [], _ => true
  | _ :: _, [] => false
  | x :: a', y :: b' =>
      if (x <? y)%N then true
      else if (y <? x)%N then false
      else str_leb a' b'
  end.

Definition str_le (a b : str) : Prop := str_leb a b = true.

#[global] Instance str_le_dec a b : Decision (str_le a b).
Proof. unfold str_le. apply _. Defined.

(** [sorted(s)] for a set of strings *)
Definition sorted (s : gset str) : list str := merge_sort str_le (elements s).

(** * Files and the category table *)

Definition DB_FILE : str := $"CVN101_Data_07JAN2026.csv".
Definition CDISC_FILE : str := $"CVN-101_AK.csv".
Definition OUT_DB_TO_CDISC : str := $"db_to_cdisc_recon.csv".
Definition OUT_CDISC_TO_DB : str := $"cdisc_to_db_recon.csv".
Definition LOG_FILE : str := $"two_way_recon.log".

Definition CDISC_QSCAT_TO_FULL : gmap str str :=
  list_to_map
    [ ($"AIMS01", $"Alberta Infant Motor Scale (AIMS)");
      ($"DEVM01", $"CDC Developmental Milestones Checklist");
      ($"PRE1", $"Pre-Examination Questionnaire");
      ($"HEAD01", $"Measurement of Head Circumference");
      ($"GMFM88", $"Gross Motor Function Measure 88-items (GMFM-88)");
      ($"HINE02", $"Hammersmith Infant Neurological Examination, Section 2 (HINE-2)");
      ($"RSS01", $"Response to Sensory Stimuli");
      ($"IMP01", $"Infant Motor Profile (IMP)");
      ($"POST1", $"Post Examination Questionnaire");
      ($"Bayley-4", $"Bayley-4 Cognitive, Language and Motor");
      ($"TIMP1", $"Test of Infant Motor Performance Screening Items (TIMPSI)");
      ($"Vineland-3 Comprehensive", $"Vineland-3 Comprehensive Interview Form") ].

(** * Helpers *)

Definition norm (x : option str) : str :=
  match x with
  | None => []
  | Some v =>
      let s := strip v in
      let s := re_sub_ws s in
      s
  end.

Definition norm_id (x : option str) : str :=
  let s := norm x in
  if endswith s $".0" then drop_last2 s else s.

(** * Data frames *)

(** A cell of an output table: text, or an integer count. *)
Inductive cell := CStr (s : str) | CInt (n : nat).

#[global] Instance cell_eq_dec : EqDecision cell.
Proof. solve_decision. Defined.

(** A frame with the default integer index: its column labels and its rows
    in index order, each row a dict from column label to value.  The input
    frames come from [pd.read_csv(..., dtype=str).fillna("")], so their
    cells are strings. *)
Record DataFrame (V : Type) := mkDF {
  columns : gset str;
  rows : list (gmap str V)
}.
Arguments mkDF {V} _ _.
Arguments columns {V} _.
Arguments rows {V} _.

(** The value of row [r] in column [c]; a cell absent from a short row was
    read as NaN and filled with the empty string. *)
Definition cell_of (r : gmap str str) (c : str) : str := default [] (r !! c).

(** [df[c]] as the list of its values, [series.map(f)], [df[c] = series] *)
Definition get_column (df : DataFrame str) (c : str) : list str :=
  map (fun r => cell_of r c) (rows df).

Definition set_column (df : DataFrame str) (c : str) (vals : list str)
  : DataFrame str :=
  mkDF (columns df ∪ {[c]})
       (zip_with (fun r v => <[c := v]> r) (rows df) vals).

(** [df[c] = v] with a scalar *)
Definition set_column_const (df : DataFrame str) (c v : str) : DataFrame str :=
  mkDF (columns df ∪ {[c]}) (map (fun r => <[c := v]> r) (rows df)).

(** [df.at[i, c] = v]; [i] is always a valid index where the program uses it
    (out of range the list update leaves the rows as they are). *)
Definition at_set (df : DataFrame str) (i : nat) (c v : str) : DataFrame str :=
  mkDF (columns df) (alter (fun r => <[c := v]> r) i (rows df)).

(** [df[df[c] != ""]] *)
Definition keep_nonempty (df : DataFrame str) (c : str) : DataFrame str :=
  mkDF (columns df) (filter (fun r => cell_of r c ≠ []) (rows df)).

(** [pd.DataFrame(records)]: the columns are the keys of the records, so a
    frame built from an empty list has no column at all. *)
Definition DataFrame_of_records (records : list (gmap str cell))
  : DataFrame cell :=
  mkDF (⋃ (dom <$> records)) records.

(** [df.drop(columns=cs, errors="ignore")] *)
Definition drop_columns (df : DataFrame cell) (cs : list str)
  : DataFrame cell :=
  mkDF (columns df ∖ list_to_set cs)
       (map (fun r => foldr delete r cs) (rows df)).

(** * Composite keys and key counts *)

Abbreviation Key := (str * str * str)%type.

(** Tuple comparison, the order in which [groupby] lists its groups. *)
Definition key_leb (k1 k2 : Key) : bool :=
  let '(a1, b1, c1) := k1 in
  let '(a2, b2, c2) := k2 in
  if bool_decide (a1 = a2)
  then (if bool_decide (b1 = b2) then str_leb c1 c2 else str_leb b1 b2)
  else str_leb a1 a2.

Definition item_le (x y : Key * nat) : Prop := key_leb x.1 y.1 = true.

#[global] Instance item_le_dec x y : Decision (item_le x y).
Proof. unfold item_le. apply _. Defined.

Definition row_key (r : gmap str str) (c1 c2 c3 : str) : Key :=
  (cell_of r c1, cell_of r c2, cell_of r c3).

Definition size_add (m : gmap Key nat) (k : Key) : gmap Key nat :=
  <[k := S (default 0 (m !! k))]> m.

(** [df.groupby([c1, c2, c3]).size().to_dict()]: one entry per distinct key
    with the number of rows that carry it, counted row by row. *)
Definition size_of_keys (keys : list Key) : gmap Key nat :=
  fold_left size_add keys ∅.

Definition groupby_size (df : DataFrame str) (c1 c2 c3 : str) : gmap Key nat :=
  size_of_keys (map (fun r => row_key r c1 c2 c3) (rows df)).

(** [d.items()] of such a dict: [groupby] sorts the group keys. *)
Definition dict_items (d : gmap Key nat) : list (Key * nat) :=
  merge_sort item_le (map_to_list d).

(** [d.get(k, 0)] *)
Definition dict_get (d : gmap Key nat) (k : Key) : nat := default 0 (d !! k).

(** * Normalization and indexing of the two inputs (lines 64-103) *)

Definition normalize_db (db : DataFrame str) : DataFrame str :=
  let db := set_column db $"USUBJID_N"
              (map (fun v => norm_id (Some v)) (get_column db $"USUBJID")) in
  let db := set_column db $"VISIT_N"
              (map (fun v => norm (Some v)) (get_column db $"VISIT")) in
  let db := set_column db $"QSCAT_FULL_N"
              (map (fun v => norm (Some v)) (get_column db $"QSCAT")) in
  db.

Definition db_counts_of (db : DataFrame str) : gmap Key nat :=
  groupby_size (normalize_db db) $"USUBJID_N" $"VISIT_N" $"QSCAT_FULL_N".

Definition normalize_cdisc (cdisc : DataFrame str) : DataFrame str :=
  let cdisc := set_column cdisc $"USUBJID_N"
              (map (fun v => norm_id (Some v)) (get_column cdisc $"USUBJID")) in
  let cdisc := set_column cdisc $"VISIT_N"
              (map (fun v => norm (Some v)) (get_column cdisc $"VISIT")) in
  let cdisc := set_column cdisc $"QSCAT_SHORT_N"
              (map (fun v => norm (Some v)) (get_column cdisc $"QSCAT")) in
  cdisc.

(** [CDISC_QSCAT_TO_FULL.get(short, "")] *)
Definition full_of (short : str) : str :=
  default [] (CDISC_QSCAT_TO_FULL !! short).

(** One iteration of the mapping loop (lines 85-89). *)
Definition map_step (st : gset str * DataFrame str) (ix : nat * str)
  : gset str * DataFrame str :=
  let '(missing_map, cdisc) := st in
  let '(i, short) := ix in
  let full := full_of short in
  let missing_map :=
    if bool_decide (full = []) then missing_map ∪ {[short]} else missing_map in
  (missing_map, at_set cdisc i $"QSCAT_FULL_N" full).

Definition enumerate {A} (l : list A) : list (nat * A) := imap (fun i x => (i, x)) l.

(** Lines 83-89: the set of unmapped codes and the frame with its
    [QSCAT_FULL_N] column filled. *)
Definition map_categories (cdisc : DataFrame str) : gset str * DataFrame str :=
  let missing_map : gset str := ∅ in
  let cdisc := set_column_const cdisc $"QSCAT_FULL_N" [] in
  fold_left map_step (enumerate (get_column cdisc $"QSCAT_SHORT_N"))
            (missing_map, cdisc).

Definition missing_map_of (cdisc : DataFrame str) : gset str :=
  (map_categories (normalize_cdisc cdisc)).1.

Definition cdisc_ok_of (cdisc : DataFrame str) : DataFrame str :=
  keep_nonempty (map_categories (normalize_cdisc cdisc)).2 $"QSCAT_FULL_N".

Definition cdisc_counts_of (cdisc : DataFrame str) : gmap Key nat :=
  groupby_size (cdisc_ok_of cdisc) $"USUBJID_N" $"VISIT_N" $"QSCAT_FULL_N".

(** * The two reconciliation passes *)

(** Body of the first loop (lines 110-124) for one row [r] of [db]. *)
Definition pass1_row (cdisc_key_set : gset Key) (cdisc_counts : gmap Key nat)
    (r : gmap str str) : gmap str cell :=
  let key := (cell_of r $"USUBJID_N", cell_of r $"VISIT_N",
              cell_of r $"QSCAT_FULL_N") in
  let '(status, cdisc_row_count, comment) :=
    if decide (key ∈ cdisc_key_set)
    then ($"AVAILABLE_IN_CDISC", dict_get cdisc_counts key, $"FOUND_IN_CDISC")
    else ($"MISSING_IN_CDISC", 0, $"NO_MATCHING_CDISC_RECORD_KEY") in
  let out : gmap str cell := CStr <$> r in
  let out := <[$"RECON_STATUS" := CStr status]> out in
  let out := <[$"CDISC_ROW_COUNT_FOR_KEY" := CInt cdisc_row_count]> out in
  let out := <[$"COMMENT" := CStr comment]> out in
  out.

(** Lines 108-127: the frame written as the first output. *)
Definition db_to_cdisc_df_of (db cdisc : DataFrame str) : DataFrame cell :=
  let cdisc_counts := cdisc_counts_of cdisc in
  let cdisc_key_set := dom cdisc_counts in
  let db_to_cdisc_rows :=
    map (pass1_row cdisc_key_set cdisc_counts) (rows (normalize_db db)) in
  drop_columns (DataFrame_of_records db_to_cdisc_rows)
               [$"USUBJID_N"; $"VISIT_N"; $"QSCAT_FULL_N"].

(** Body of the second loop (lines 135-154) for one item of [cdisc_counts]. *)
Definition pass2_row (db_key_set : gset Key) (db_counts : gmap Key nat)
    (item : Key * nat) : gmap str cell :=
  let '(key, cdisc_row_count) := item in
  let '(usubjid, visit, qscat_full) := key in
  let '(status, db_row_count, comment) :=
    if decide (key ∈ db_key_set)
    then ($"AVAILABLE_IN_DB", dict_get db_counts key, $"FOUND_IN_DB")
    else ($"MISSING_IN_DB", 0, $"NO_MATCHING_DB_RECORD_KEY") in
  list_to_map
    [ ($"USUBJID", CStr usubjid);
      ($"VISIT", CStr visit);
      ($"QSCAT_FULL", CStr qscat_full);
      ($"RECON_STATUS", CStr status);
      ($"CDISC_ROW_COUNT_FOR_KEY", CInt cdisc_row_count);
      ($"DB_ROW_COUNT_FOR_KEY", CInt db_row_count);
      ($"COMMENT", CStr comment) ].

(** Lines 133-156: the frame written as the second output. *)
Definition cdisc_to_db_df_of (db cdisc : DataFrame str) : DataFrame cell :=
  let db_counts := db_counts_of db in
  let db_key_set := dom db_counts in
  let cdisc_to_db_rows :=
    map (pass2_row db_key_set db_counts) (dict_items (cdisc_counts_of cdisc)) in
  DataFrame_of_records cdisc_to_db_rows.

(** * Effects: files, log, console and exceptions *)

Inductive level := WARNING | INFO.

#[global] Instance level_eq_dec : EqDecision level.
Proof. solve_decision. Defined.

(** The formatted messages, kept with the values they interpolate. *)
Inductive message :=
  | MissingMappings (codes : list str)
  | Completed (db_rows missing_in_cdisc cdisc_keys missing_in_db : nat).

Inductive console_line :=
  | PSummary
  | PDbRows (n : nat)
  | PDbMissing (n : nat)
  | PCdiscKeys (n : nat)
  | PCdiscMissing (n : nat)
  | PMissingMappings (codes : list str)
  | POutput1 (path : str)
  | POutput2 (path : str)
  | PLog (path : str).

(** [files]: the tables written with [to_csv], by path; [logfile]: the
    records appended to [LOG_FILE]; [stdout]: the printed lines. *)
Record World := mkWorld {
  files : gmap str (DataFrame cell);
  logfile : list (level * message);
  stdout : list console_line
}.

Inductive exn :=
  | SystemExit (msg : str)
  | KeyError (key : str).

Inductive result (A : Type) :=
  | Ok (a : A)
  | Raise (e : exn).
Arguments Ok {A} _.
Arguments Raise {A} _.

Definition M (A : Type) : Type := World -> result A * World.

#[global] Instance M_ret : MRet M := fun A a w => (Ok a, w).

#[global] Instance M_bind : MBind M := fun A B k m w =>
  match m w with
  | (Ok a, w') => k a w'
  | (Raise e, w') => (Raise e, w')
  end.

Definition raise {A} (e : exn) : M A := fun w => (Raise e, w).

Definition to_csv (df : DataFrame cell) (path : str) : M unit :=
  fun w => (Ok tt, mkWorld (<[path := df]> (files w)) (logfile w) (stdout w)).

Definition logging (l : level) (m : message) : M unit :=
  fun w => (Ok tt, mkWorld (files w) (logfile w ++ [(l, m)]) (stdout w)).

Definition print (ln : console_line) : M unit :=
  fun w => (Ok tt, mkWorld (files w) (logfile w) (stdout w ++ [ln])).

Definition when (b : bool) (m : M unit) : M unit := if b then m else mret tt.

(** [df[c]]: the column as a list of optional values, or [KeyError]. *)
Definition getitem (df : DataFrame cell) (c : str) : M (list (option cell)) :=
  if decide (c ∈ columns df)
  then mret (map (fun r => r !! c) (rows df))
  else raise (KeyError c).

(** [(series == s).sum()] *)
Definition count_eq (series : list (option cell)) (s : str) : nat :=
  length (filter (fun v => v = Some (CStr s)) series).

(** The process exit status: 0 on normal return; an uncaught exception, and
    [SystemExit] with a message, end the process with status 1. *)
Definition exit_status {A} (r : result A) : Z :=
  match r with
  | Ok _ => 0
  | Raise _ => 1
  end.

(** * main *)

(** Lines 58-62. *)
Fixpoint validate (cols : list str) (db cdisc : DataFrame str) : M unit :=
  match cols with
  | [] => mret tt
  | col :: cols' =>
      if decide (col ∉ columns db)
      then raise (SystemExit ($"Missing column '" ++ col ++ $"' in DB file: " ++ DB_FILE))
      else if decide (col ∉ columns cdisc)
      then raise (SystemExit ($"Missing column '" ++ col ++ $"' in CDISC file: " ++ CDISC_FILE))
      else validate cols' db cdisc
  end.

Definition required_columns : list str := [$"USUBJID"; $"VISIT"; $"QSCAT"].

(** Lines 159-182: the summary, on the console and in the log. *)
Definition summary (missing_map : gset str)
    (db_to_cdisc_df cdisc_to_db_df : DataFrame cell) : M unit :=
  let total_db := length (rows db_to_cdisc_df) in
  status1 ← getitem db_to_cdisc_df $"RECON_STATUS" ;
  let missing_in_cdisc := count_eq status1 $"MISSING_IN_CDISC" in
  let total_cdisc_keys := length (rows cdisc_to_db_df) in
  status2 ← getitem cdisc_to_db_df $"RECON_STATUS" ;
  let missing_in_db := count_eq status2 $"MISSING_IN_DB" in
  print PSummary ;;
  print (PDbRows total_db) ;;
  print (PDbMissing missing_in_cdisc) ;;
  print (PCdiscKeys total_cdisc_keys) ;;
  print (PCdiscMissing missing_in_db) ;;
  when (bool_decide (missing_map ≠ ∅))
       (print (PMissingMappings (sorted missing_map))) ;;
  print (POutput1 OUT_DB_TO_CDISC) ;;
  print (POutput2 OUT_CDISC_TO_DB) ;;
  print (PLog LOG_FILE) ;;
  logging INFO (Completed total_db missing_in_cdisc total_cdisc_keys missing_in_db).

(** [main], from the two frames that lines 54-55 read. *)
Definition main (db cdisc : DataFrame str) : M unit :=
  validate required_columns db cdisc ;;
  let missing_map := missing_map_of cdisc in
  when (bool_decide (missing_map ≠ ∅))
       (logging WARNING (MissingMappings (sorted missing_map))) ;;
  let db_to_cdisc_df := db_to_cdisc_df_of db cdisc in
  to_csv db_to_cdisc_df OUT_DB_TO_CDISC ;;
  let cdisc_to_db_df := cdisc_to_db_df_of db cdisc in
  to_csv cdisc_to_db_df OUT_CDISC_TO_DB ;;
  summary missing_map db_to_cdisc_df cdisc_to_db_df.

Definition w0 : World := mkWorld ∅ [] [].

(** * Notions used to state the properties *)

(** The composite key of a primary record. *)
Definition db_key (r : gmap str str) : Key :=
  (norm_id (Some (cell_of r $"USUBJID")), norm (Some (cell_of r $"VISIT")),
   norm (Some (cell_of r $"QSCAT"))).

(** The normalized short code of a secondary record, and its composite key
    when the code is in the category table. *)
Definition short_code (r : gmap str str) : str := norm (Some (cell_of r $"QSCAT")).

Definition cdisc_key (r : gmap str str) : option Key :=
  match CDISC_QSCAT_TO_FULL !! short_code r with
  | Some full =>
      Some (norm_id (Some (cell_of r $"USUBJID")),
            norm (Some (cell_of r $"VISIT")), full)
  | None => None
  end.

(** One row of [db] after lines 65-67. *)
Definition db_row_n (r : gmap str str) : gmap str str :=
  <[$"QSCAT_FULL_N" := norm (Some (cell_of r $"QSCAT"))]>
    (<[$"VISIT_N" := norm (Some (cell_of r $"VISIT"))]>
       (<[$"USUBJID_N" := norm_id (Some (cell_of r $"USUBJID"))]> r)).

(** One row of [cdisc] after lines 78-80, and after the mapping loop. *)
Definition cdisc_row_n (r : gmap str str) : gmap str str :=
  <[$"QSCAT_SHORT_N" := norm (Some (cell_of r $"QSCAT"))]>
    (<[$"VISIT_N" := norm (Some (cell_of r $"VISIT"))]>
       (<[$"USUBJID_N" := norm_id (Some (cell_of r $"USUBJID"))]> r)).

Definition cdisc_row_full (r : gmap str str) : gmap str str :=
  <[$"QSCAT_FULL_N" := full_of (short_code r)]> (cdisc_row_n r).

Definition unmapped (shorts : list str) : gset str :=
  list_to_set (filter (fun s => full_of s = []) shorts).

Definition count_key (k : Key) (keys : list Key) : nat :=
  length (filter (fun k' => k' = k) keys).

Definition sum_counts (d : gmap Key nat) : nat :=
  map_fold (fun _ n acc => n + acc) 0 d.

(** * Sample inputs *)

Definition mk_row (l : list (str * str)) : gmap str str := list_to_map l.

Definition header : gset str := list_to_set [$"USUBJID"; $"VISIT"; $"QSCAT"].

Definition ex_row_db : gmap str str :=
  mk_row [($"USUBJID", $"SUBJ-001"); ($"VISIT", $"V1");
          ($"QSCAT", $"Pre-Examination Questionnaire")].

Definition ex_row_db2 : gmap str str :=
  mk_row [($"USUBJID", $"SUBJ-009"); ($"VISIT", $"V2");
          ($"QSCAT", $"Response to Sensory Stimuli")].

Definition ex_row_cdisc : gmap str str :=
  mk_row [($"USUBJID", $"SUBJ-001.0"); ($"VISIT", $"V1"); ($"QSCAT", $"PRE1")].

Definition ex_row_unknown : gmap str str :=
  mk_row [($"USUBJID", $"SUBJ-002"); ($"VISIT", $"V1");
          ($"QSCAT", $"UNKNOWN_CODE")].

(** Two equal primary rows and one more; a mapped and an unmapped secondary
    row. *)
Definition ex_db : DataFrame str :=
  mkDF header [ex_row_db; ex_row_db; ex_row_db2].

Definition ex_cdisc : DataFrame str :=
  mkDF header [ex_row_cdisc; ex_row_unknown].

(** A primary file with the header line only, and a secondary file whose
    only row carries an unmapped code. *)
Definition ex_db_empty : DataFrame str := mkDF header [].

Definition ex_cdisc_unknown : DataFrame str := mkDF header [ex_row_unknown].

(** A primary file without the [VISIT] column. *)
Definition ex_db_no_visit : DataFrame str :=
  mkDF (list_to_set [$"USUBJID"; $"QSCAT"])
       [mk_row [($"USUBJID", $"SUBJ-001");
                ($"QSCAT", $"Pre-Examination Questionnaire")]].

(** A stripped string neither starts nor ends with whitespace. *)
Inductive trimmed : str -> Prop :=
  | trimmed_nil : trimmed []
  | trimmed_one c : isspace c = false -> trimmed [c]
  | trimmed_ends c u d :
      isspace c = false -> isspace d = false -> trimmed (c :: u ++ [d]).


(** Both frames carry the three required columns. *)
Definition has_columns {V} (df : DataFrame V) (cols : list str) : bool :=
  forallb (fun c => bool_decide (c ∈ columns df)) cols.

Definition schema_ok (db cdisc : DataFrame str) : bool :=
  has_columns db required_columns && has_columns cdisc required_columns.

(** The text of a cell of an output row. *)
Definition out_cell (o : gmap str cell) (c : str) : str :=
  match o !! c with
  | Some (CStr s) => s
  | _ => []
  end.

(** The composite key of a row of the first output, from the original
    columns it carries, and of a row of the second output. *)
Definition p1_key (o : gmap str cell) : Key :=
  (norm_id (Some (out_cell o $"USUBJID")), norm (Some (out_cell o $"VISIT")),
   norm (Some (out_cell o $"QSCAT"))).

Definition p2_key (o : gmap str cell) : Key :=
  (out_cell o $"USUBJID", out_cell o $"VISIT", out_cell o $"QSCAT_FULL").

(** The column names the program itself writes into a first-output row. *)
Definition written_columns : list str :=
  [$"USUBJID_N"; $"VISIT_N"; $"QSCAT_FULL_N";
   $"RECON_STATUS"; $"CDISC_ROW_COUNT_FOR_KEY"; $"COMMENT"].

(** A secondary record whose short code is in the category table. *)
Definition mappable (r : gmap str str) : Prop :=
  is_Some (CDISC_QSCAT_TO_FULL !! short_code r).

#[global] Instance mappable_dec r : Decision (mappable r).
Proof. unfold mappable. apply _. Defined.

(** A computation that returns normally and touches neither the files nor
    the warnings of the log. *)
Definition quiet {A} (m : M A) : Prop :=
  forall w, exists a w',
    m w = (Ok a, w') /\ files w' = files w /\
    filter (fun e => e.1 = WARNING) (logfile w') =
    filter (fun e => e.1 = WARNING) (logfile w).

(** What [main] returns once the columns are validated. *)
Definition summary_result (F1 F2 : DataFrame cell) : result unit :=
  if decide ($"RECON_STATUS" ∈ columns F1)
  then if decide ($"RECON_STATUS" ∈ columns F2)
       then Ok tt
       else Raise (KeyError $"RECON_STATUS")
  else Raise (KeyError $"RECON_STATUS").

(** The status, count and comment that the first loop attaches to a row
    with key [k], and the row it emits for the primary record [r]. *)
Definition p1_status (idx : gmap Key nat) (k : Key) : str :=
  if decide (k ∈ dom idx) then $"AVAILABLE_IN_CDISC" else $"MISSING_IN_CDISC".

Definition p1_count (idx : gmap Key nat) (k : Key) : nat :=
  if decide (k ∈ dom idx) then dict_get idx k else 0.

Definition p1_comment (idx : gmap Key nat) (k : Key) : str :=
  if decide (k ∈ dom idx) then $"FOUND_IN_CDISC"
  else $"NO_MATCHING_CDISC_RECORD_KEY".

Definition helper_columns : list str :=
  [$"USUBJID_N"; $"VISIT_N"; $"QSCAT_FULL_N"].

Definition p1_out (idx : gmap Key nat) (r : gmap str str) : gmap str cell :=
  foldr delete (pass1_row (dom idx) idx (db_row_n r)) helper_columns.

Definition p2_status (idx : gmap Key nat) (k : Key) : str :=
  if decide (k ∈ dom idx) then $"AVAILABLE_IN_DB" else $"MISSING_IN_DB".

Definition p2_count (idx : gmap Key nat) (k : Key) : nat :=
  if decide (k ∈ dom idx) then dict_get idx k else 0.

(** Every whitespace character is a single space followed by a character
    that is not whitespace (or by nothing). *)
Fixpoint single_spaced (s : str) : bool :=
  match s with
  | [] => true
  | c :: t =>
      (negb (isspace c) ||
       ((c =? 32)%N && match t with [] => true | d :: _ => negb (isspace d) end))
      && single_spaced t
  end.

(** The normal form of [norm]: trimmed, and single spaces only. *)
Definition normalized (s : str) : Prop := trimmed s /\ single_spaced s = true.

(** A secondary frame without its unmappable rows. *)
Definition mappable_only (cdisc : DataFrame str) : DataFrame str :=
  mkDF (columns cdisc) (filter mappable (rows cdisc)).

(** The console lines of the summary, for given totals. *)
Definition summary_lines (missing_map : gset str) (a b c d : nat)
  : list console_line :=
  [PSummary; PDbRows a; PDbMissing b; PCdiscKeys c; PCdiscMissing d] ++
  (if bool_decide (missing_map ≠ ∅)
   then [PMissingMappings (sorted missing_map)] else []) ++
  [POutput1 OUT_DB_TO_CDISC; POutput2 OUT_CDISC_TO_DB; PLog LOG_FILE].

(** The column names of a row of the second output. *)
Definition pass2_columns : gset str :=
  list_to_set [$"USUBJID"; $"VISIT"; $"QSCAT_FULL"; $"RECON_STATUS";
               $"CDISC_ROW_COUNT_FOR_KEY"; $"DB_ROW_COUNT_FOR_KEY"; $"COMMENT"].

(** * Normalization *)

Section Normalizer.

Lemma lstrip_head s :
  match lstrip s with [] => True | c :: _ => isspace c = false end.
Proof.
  induction s as [|c t IH]; simpl; [done|].
  destruct (isspace c) eqn:E; [exact IH | exact E].
Qed.

Lemma lstrip_last t c :
  isspace c = false -> exists u, lstrip (t ++ [c]) = u ++ [c].
Proof.
  intros Hc. induction t as [|a t IH]; simpl.
  - rewrite Hc. by exists [].
  - destruct (isspace a); [exact IH | by exists (a :: t)].
Qed.

Lemma rstrip_snoc u c : isspace c = false -> rstrip (u ++ [c]) = u ++ [c].
Proof.
  intros Hc. unfold rstrip. rewrite rev_app_distr. simpl. rewrite Hc.
  simpl. by rewrite rev_involutive.
Qed.

Lemma rstrip_last s :
  rstrip s = [] \/ exists u c, rstrip s = u ++ [c] /\ isspace c = false.
Proof.
  unfold rstrip. pose proof (lstrip_head (rev s)) as H.
  destruct (lstrip (rev s)) as [|c t]; [by left|].
  right. exists (rev t), c. by split.
Qed.

Lemma rstrip_cons c t :
  isspace c = false -> exists u, rstrip (c :: t) = c :: u.
Proof.
  intros Hc. unfold rstrip. simpl.
  destruct (lstrip_last (rev t) c Hc) as [u Hu]. rewrite Hu.
  exists (rev u). by rewrite rev_app_distr.
Qed.

Lemma trimmed_intro c t u d :
  isspace c = false -> isspace d = false -> c :: t = u ++ [d] ->
  trimmed (c :: t).
Proof.
  intros Hc Hd E. destruct u as [|c' u]; simplify_eq/=.
  - by constructor.
  - by constructor.
Qed.

Lemma strip_trimmed s : trimmed (strip s).
Proof.
  unfold strip. pose proof (lstrip_head s) as Hh.
  destruct (lstrip s) as [|c t] eqn:E.
  - vm_compute. constructor.
  - destruct (rstrip_cons c t Hh) as [u Hu].
    destruct (rstrip_last (c :: t)) as [Hn | (v & d & Hv & Hd)].
    + congruence.
    + rewrite Hu. rewrite Hu in Hv. by eapply trimmed_intro.
Qed.

Lemma strip_of_trimmed s : trimmed s -> strip s = s.
Proof.
  intros [|c Hc|c u d Hc Hd]; unfold strip; simpl.
  - done.
  - rewrite Hc. unfold rstrip. simpl. by rewrite Hc.
  - rewrite Hc. exact (rstrip_snoc (c :: u) d Hd).
Qed.

Lemma sub_ws_run_last b u c :
  isspace c = false -> exists v, sub_ws_run b (u ++ [c]) = v ++ [c].
Proof.
  intros Hc. revert b. induction u as [|a u IH]; intros b; simpl.
  - rewrite Hc. by exists [].
  - destruct (isspace a).
    + destruct b.
      * apply IH.
      * destruct (IH true) as [v Hv]. rewrite Hv. by exists (32%N :: v).
    + destruct (IH false) as [v Hv]. rewrite Hv. by exists (a :: v).
Qed.

Lemma re_sub_ws_trimmed s : trimmed s -> trimmed (re_sub_ws s).
Proof.
  intros [|c Hc|c u d Hc Hd]; unfold re_sub_ws; simpl.
  - constructor.
  - rewrite Hc. by constructor.
  - rewrite Hc. destruct (sub_ws_run_last false u d Hd) as [v Hv].
    rewrite Hv. by constructor.
Qed.

Lemma sub_ws_run_idem b s : sub_ws_run b (sub_ws_run b s) = sub_ws_run b s.
Proof.
  revert b. induction s as [|c t IH]; intros b; simpl; [done|].
  destruct (isspace c) eqn:E.
  - destruct b; simpl; [apply IH|]. by rewrite IH.
  - simpl. rewrite E. by rewrite IH.
Qed.

Lemma norm_trimmed x : trimmed (norm x).
Proof.
  destruct x as [v|]; simpl; [|constructor].
  apply re_sub_ws_trimmed, strip_trimmed.
Qed.

Lemma endswith_app s suf : endswith (s ++ suf) suf = true.
Proof.
  unfold endswith. rewrite length_app.
  rewrite bool_decide_eq_true_2 by lia. simpl.
  apply bool_decide_eq_true_2.
  replace (length s + length suf - length suf) with (length s) by lia.
  by rewrite drop_app_length.
Qed.

Lemma endswith_inv s suf :
  endswith s suf = true -> s = take (length s - length suf) s ++ suf.
Proof.
  unfold endswith. intros H. apply andb_true_iff in H as [_ H].
  apply bool_decide_eq_true_1 in H.
  pose proof (take_drop (length s - length suf) s) as E.
  rewrite H in E. by symmetry.
Qed.

End Normalizer.

(** C4, as stated, fails: ["123.00"] does not end with [".0"], so
    [norm_id] returns it unchanged and the result is not ["123.0"]. *)
Lemma C4_norm_id_12300_counterexample :
  norm_id (Some $"123.00") = $"123.00" /\ norm_id (Some $"123.00") <> $"123.0".
Proof.
  split; [vm_compute; reflexivity|].
  vm_compute. discriminate.
Qed.

(** C4, amended: [norm_id] removes one trailing [".0"] of the normalized
    text and no more: [norm_id("123.0") = "123"], [norm_id("123.0.0") =
    "123.0"], while ["123.00"] and ["ABC"], which do not end with [".0"],
    come back unchanged; whenever the normalized text is [s ++ ".0"] the
    result is [s], even if [s] itself ends with [".0"], and a normalized
    text without that suffix is returned as it is. *)
Theorem C4_norm_id_strips_one_suffix :
  norm_id (Some $"123.0") = $"123" /\
  norm_id (Some $"123.0.0") = $"123.0" /\
  norm_id (Some $"123.00") = $"123.00" /\
  norm_id (Some $"ABC") = $"ABC" /\
  (forall x s, norm x = s ++ $".0" -> norm_id x = s) /\
  (forall x, endswith (norm x) $".0" = false -> norm_id x = norm x).
Proof.
  split; [vm_compute; reflexivity|].
  split; [vm_compute; reflexivity|].
  split; [vm_compute; reflexivity|].
  split; [vm_compute; reflexivity|].
  split.
  - intros x s H. unfold norm_id. rewrite H, endswith_app.
    unfold drop_last2. rewrite length_app. simpl.
    replace (length s + 2 - 2) with (length s) by lia.
    by rewrite take_app_length.
  - intros x H. unfold norm_id. by rewrite H.
Qed.

Lemma C4_norm_id_strips_one_suffix_witness :
  norm (Some $" 7.0.0 ") = $"7.0" ++ $".0" /\
  norm_id (Some $" 7.0.0 ") = $"7.0" /\
  endswith (norm (Some $"A B")) $".0" = false /\
  norm_id (Some $"A B") = norm (Some $"A B").
Proof.
  split; [vm_compute; reflexivity|].
  split; [apply C4_norm_id_strips_one_suffix; vm_compute; reflexivity|].
  split; [vm_compute; reflexivity|].
  apply C4_norm_id_strips_one_suffix; vm_compute; reflexivity.
Defined.

(** C5: [norm] is idempotent: normalizing a normalized value changes
    nothing, for every input value, [None] included. *)
Theorem C5_norm_idempotent (x : option str) :
  norm (Some (norm x)) = norm x.
Proof.
  destruct x as [v|]; [|done].
  simpl. rewrite (strip_of_trimmed (re_sub_ws (strip v))).
  - apply sub_ws_run_idem.
  - apply re_sub_ws_trimmed, strip_trimmed.
Qed.

(** * Key counts *)

Section KeyIndex.

Lemma count_key_cons k a keys :
  count_key k (a :: keys) =
  if decide (a = k) then S (count_key k keys) else count_key k keys.
Proof.
  unfold count_key. rewrite filter_cons. by destruct (decide (a = k)).
Qed.

Lemma count_key_pos k keys : k ∈ keys <-> 0 < count_key k keys.
Proof.
  induction keys as [|a t IH].
  { rewrite elem_of_nil. unfold count_key. simpl. lia. }
  rewrite count_key_cons, elem_of_cons. destruct (decide (a = k)).
  - split; [lia | intros _; by left].
  - rewrite <- IH. split; [intros [?|?]; [congruence|done] | by right].
Qed.

Lemma count_key_perm k keys keys' :
  keys ≡ₚ keys' -> count_key k keys = count_key k keys'.
Proof. intros H. unfold count_key. by rewrite H. Qed.

Lemma count_key_app k l1 l2 :
  count_key k (l1 ++ l2) = count_key k l1 + count_key k l2.
Proof. unfold count_key. by rewrite filter_app, length_app. Qed.

Lemma dict_get_size_add m a k :
  dict_get (size_add m a) k =
  if decide (a = k) then S (dict_get m k) else dict_get m k.
Proof.
  unfold dict_get, size_add. destruct (decide (a = k)) as [->|Hne].
  - by rewrite lookup_insert_eq.
  - by rewrite lookup_insert_ne.
Qed.

Lemma fold_size_add_lookup keys m k :
  fold_left size_add keys m !! k =
  match count_key k keys with
  | 0 => m !! k
  | S c => Some (S c + dict_get m k)
  end.
Proof.
  revert m. induction keys as [|a t IH]; intros m; [done|].
  simpl. rewrite IH, count_key_cons, dict_get_size_add.
  destruct (decide (a = k)) as [->|Hne].
  - destruct (count_key k t) as [|c].
    + unfold size_add. by rewrite lookup_insert_eq.
    + f_equal. lia.
  - destruct (count_key k t); [|done].
    unfold size_add. by rewrite lookup_insert_ne.
Qed.

Lemma size_of_keys_lookup keys k :
  size_of_keys keys !! k =
  match count_key k keys with 0 => None | S c => Some (S c) end.
Proof.
  unfold size_of_keys. rewrite fold_size_add_lookup.
  destruct (count_key k keys); [done|].
  unfold dict_get. rewrite lookup_empty. simpl. f_equal. lia.
Qed.

Lemma size_of_keys_get keys k : dict_get (size_of_keys keys) k = count_key k keys.
Proof.
  unfold dict_get. rewrite size_of_keys_lookup. by destruct (count_key k keys).
Qed.

Lemma size_of_keys_dom keys k : k ∈ dom (size_of_keys keys) <-> k ∈ keys.
Proof.
  rewrite elem_of_dom, size_of_keys_lookup, count_key_pos.
  destruct (count_key k keys).
  - split; [intros [? ?]; done | lia].
  - split; [lia | by eauto].
Qed.

Lemma size_of_keys_Some keys k n :
  size_of_keys keys !! k = Some n -> n = count_key k keys /\ 1 <= n.
Proof.
  rewrite size_of_keys_lookup. destruct (count_key k keys); [done|].
  intros [= <-]. lia.
Qed.

Lemma size_of_keys_perm keys keys' :
  keys ≡ₚ keys' -> size_of_keys keys = size_of_keys keys'.
Proof.
  intros H. apply map_eq. intros k.
  by rewrite !size_of_keys_lookup, (count_key_perm k _ _ H).
Qed.

Lemma sum_counts_size_add m k : sum_counts (size_add m k) = S (sum_counts m).
Proof.
  assert (Hcomm : forall (z1 z2 y : nat), z1 + (z2 + y) = z2 + (z1 + y))
    by (intros; lia).
  unfold sum_counts, size_add. destruct (m !! k) as [c|] eqn:E; simpl.
  - rewrite <- (insert_delete_eq m k (S c)).
    rewrite map_fold_insert_L;
      [|intros; apply Hcomm|by rewrite lookup_delete_eq].
    rewrite (map_fold_delete_L _ _ k c m); [lia|intros; apply Hcomm|done].
  - rewrite map_fold_insert_L; [lia|intros; apply Hcomm|done].
Qed.

Lemma sum_counts_fold keys m :
  sum_counts (fold_left size_add keys m) = sum_counts m + length keys.
Proof.
  revert m. induction keys as [|a t IH]; intros m; simpl; [lia|].
  rewrite IH, sum_counts_size_add. lia.
Qed.

Lemma sum_counts_size_of_keys keys : sum_counts (size_of_keys keys) = length keys.
Proof.
  unfold size_of_keys. rewrite sum_counts_fold.
  unfold sum_counts. by rewrite map_fold_empty.
Qed.

End KeyIndex.

(** * The normalized frames *)

Section Frames.

Lemma zip_with_map_self {A B C} (f : A -> B -> C) (g : A -> B) (l : list A) :
  zip_with f l (map g l) = map (fun x => f x (g x)) l.
Proof. induction l as [|x l IH]; simpl; [done|]. by rewrite IH. Qed.

Lemma set_column_rows db c (f : str -> str) c0 :
  rows (set_column db c (map f (get_column db c0))) =
  map (fun r => <[c := f (cell_of r c0)]> r) (rows db).
Proof.
  unfold set_column, get_column. simpl.
  rewrite map_map. apply zip_with_map_self.
Qed.

Lemma cell_of_insert_ne r c c' v : c ≠ c' -> cell_of (<[c := v]> r) c' = cell_of r c'.
Proof. intros H. unfold cell_of. by rewrite lookup_insert_ne. Qed.

Lemma cell_of_insert_eq r c v : cell_of (<[c := v]> r) c = v.
Proof. unfold cell_of. by rewrite lookup_insert_eq. Qed.

Lemma normalize_db_rows db : rows (normalize_db db) = map db_row_n (rows db).
Proof.
  unfold normalize_db. rewrite !set_column_rows, !map_map.
  apply map_ext. intros r. unfold db_row_n.
  by rewrite !cell_of_insert_ne by discriminate.
Qed.

Lemma db_row_n_key r :
  row_key (db_row_n r) $"USUBJID_N" $"VISIT_N" $"QSCAT_FULL_N" = db_key r.
Proof.
  unfold row_key, db_row_n, db_key.
  rewrite cell_of_insert_eq.
  rewrite (cell_of_insert_ne _ $"QSCAT_FULL_N" $"VISIT_N") by discriminate.
  rewrite cell_of_insert_eq.
  rewrite !(cell_of_insert_ne _ _ $"USUBJID_N") by discriminate.
  by rewrite cell_of_insert_eq.
Qed.

Lemma db_counts_of_keys db :
  db_counts_of db = size_of_keys (map db_key (rows db)).
Proof.
  unfold db_counts_of, groupby_size. rewrite normalize_db_rows, map_map.
  f_equal. apply map_ext. intros r. apply db_row_n_key.
Qed.

Lemma normalize_cdisc_rows cdisc :
  rows (normalize_cdisc cdisc) = map cdisc_row_n (rows cdisc).
Proof.
  unfold normalize_cdisc. rewrite !set_column_rows, !map_map.
  apply map_ext. intros r. unfold cdisc_row_n.
  by rewrite !cell_of_insert_ne by discriminate.
Qed.

Lemma map_step_fold cols (shorts : list str) :
  forall (pre rs : list (gmap str str)) (S0 : gset str),
  length rs = length shorts ->
  fold_left map_step (imap (fun i x => (length pre + i, x)) shorts)
            (S0, mkDF cols (pre ++ rs)) =
  (S0 ∪ unmapped shorts,
   mkDF cols (pre ++ zip_with (fun r s => <[$"QSCAT_FULL_N" := full_of s]> r)
                              rs shorts)).
Proof.
  induction shorts as [|s shorts IH]; intros pre rs S0 Hlen.
  - destruct rs; [|done]. simpl. unfold unmapped.
    rewrite filter_nil, list_to_set_nil. by rewrite (right_id_L ∅ (∪)).
  - destruct rs as [|r rs]; [done|]. simpl in Hlen.
    rewrite imap_cons. cbn [fold_left].
    change (map_step (S0, mkDF cols (pre ++ r :: rs)) (length pre + 0, s))
      with (if bool_decide (full_of s = []) then S0 ∪ {[s]} else S0,
            at_set (mkDF cols (pre ++ r :: rs)) (length pre + 0)
                   $"QSCAT_FULL_N" (full_of s)).
    unfold at_set. cbn [rows columns].
    rewrite alter_app_r.
    change (alter (fun r0 => <[$"QSCAT_FULL_N" := full_of s]> r0) 0 (r :: rs))
      with (<[$"QSCAT_FULL_N" := full_of s]> r :: rs).
    rewrite (cons_middle _ pre rs), app_assoc.
    rewrite (imap_ext _ (fun i x => (length (pre ++ [<[$"QSCAT_FULL_N" := full_of s]> r]) + i, x)));
      last first.
    { intros i x _. simpl. rewrite length_app. simpl. f_equal. lia. }
    rewrite IH by lia.
    rewrite <- app_assoc. cbn [app zip_with]. f_equal.
    unfold unmapped. rewrite filter_cons.
    destruct (decide (full_of s = [])) as [E|E].
    + rewrite bool_decide_eq_true_2 by done.
      by rewrite list_to_set_cons, (assoc_L (∪)).
    + rewrite bool_decide_eq_false_2 by done. done.
Qed.

Lemma map_categories_normalized cdisc :
  map_categories (normalize_cdisc cdisc) =
  (unmapped (map short_code (rows cdisc)),
   mkDF (columns (normalize_cdisc cdisc) ∪ {[$"QSCAT_FULL_N"]})
        (map cdisc_row_full (rows cdisc))).
Proof.
  unfold map_categories, set_column_const, get_column. cbn [rows columns].
  rewrite normalize_cdisc_rows, !map_map.
  set (cols := columns (normalize_cdisc cdisc) ∪ {[$"QSCAT_FULL_N"]}).
  set (rs := map (fun r => <[$"QSCAT_FULL_N" := []]> (cdisc_row_n r)) (rows cdisc)).
  assert (Hs : map (fun r => cell_of (<[$"QSCAT_FULL_N" := []]> (cdisc_row_n r))
                                    $"QSCAT_SHORT_N") (rows cdisc)
               = map short_code (rows cdisc)).
  { apply map_ext. intros r. unfold short_code, cdisc_row_n.
    rewrite cell_of_insert_ne by discriminate. by rewrite cell_of_insert_eq. }
  rewrite Hs.
  pose proof (map_step_fold cols (map short_code (rows cdisc)) [] rs ∅) as H.
  unfold enumerate. cbn [length app Nat.add] in H. rewrite H.
  2:{ unfold rs. by rewrite !length_map. }
  rewrite (left_id_L ∅ (∪)). f_equal. f_equal.
  unfold rs. clear. induction (rows cdisc) as [|r l IH]; simpl; [done|].
  rewrite IH. f_equal. unfold cdisc_row_full. by rewrite insert_insert_eq.
Qed.

End Frames.

Section SecondaryIndex.

Lemma category_names_nonempty s full :
  CDISC_QSCAT_TO_FULL !! s = Some full -> full ≠ [].
Proof.
  intros H. apply elem_of_list_to_map_2 in H.
  repeat (apply elem_of_cons in H as [H|H]; [injection H as -> ->; discriminate|]).
  by apply elem_of_nil in H.
Qed.

Lemma full_of_nonempty s : full_of s ≠ [] <-> is_Some (CDISC_QSCAT_TO_FULL !! s).
Proof.
  unfold full_of. destruct (CDISC_QSCAT_TO_FULL !! s) as [full|] eqn:E; simpl.
  - split; [by eauto | intros _; by eapply category_names_nonempty].
  - split; [done | intros [? ?]; done].
Qed.

Lemma cdisc_row_full_cell r :
  cell_of (cdisc_row_full r) $"QSCAT_FULL_N" = full_of (short_code r).
Proof. unfold cdisc_row_full. apply cell_of_insert_eq. Qed.

Lemma cdisc_row_full_key r :
  row_key (cdisc_row_full r) $"USUBJID_N" $"VISIT_N" $"QSCAT_FULL_N" =
  (norm_id (Some (cell_of r $"USUBJID")), norm (Some (cell_of r $"VISIT")),
   full_of (short_code r)).
Proof.
  unfold row_key, cdisc_row_full, cdisc_row_n.
  rewrite cell_of_insert_eq.
  rewrite !(cell_of_insert_ne _ _ $"VISIT_N") by discriminate.
  rewrite cell_of_insert_eq.
  rewrite !(cell_of_insert_ne _ _ $"USUBJID_N") by discriminate.
  by rewrite cell_of_insert_eq.
Qed.

Lemma cdisc_key_Some r k :
  cdisc_key r = Some k <->
  mappable r /\
  k = (norm_id (Some (cell_of r $"USUBJID")), norm (Some (cell_of r $"VISIT")),
       full_of (short_code r)).
Proof.
  unfold cdisc_key, mappable, full_of.
  destruct (CDISC_QSCAT_TO_FULL !! short_code r) as [full|]; simpl.
  - split; [intros [= <-]; by eauto | intros [_ ->]; done].
  - split; [done | intros [[? ?] _]; done].
Qed.

Lemma omap_cons_eq {A B} (f : A -> option B) x l :
  omap f (x :: l) = match f x with Some y => y :: omap f l | None => omap f l end.
Proof. reflexivity. Qed.

Lemma cdisc_ok_keys (l : list (gmap str str)) :
  map (fun r => row_key r $"USUBJID_N" $"VISIT_N" $"QSCAT_FULL_N")
      (filter (fun r => cell_of r $"QSCAT_FULL_N" ≠ []) (map cdisc_row_full l))
  = omap cdisc_key l.
Proof.
  induction l as [|r l IH]; [done|].
  cbn [map]. rewrite omap_cons_eq, filter_cons.
  destruct (decide (cell_of (cdisc_row_full r) $"QSCAT_FULL_N" ≠ [])) as [H|H];
    rewrite cdisc_row_full_cell, full_of_nonempty in H.
  - cbn [map]. rewrite IH, cdisc_row_full_key.
    destruct (cdisc_key r) as [k|] eqn:E.
    + apply cdisc_key_Some in E as [_ ->]. done.
    + exfalso. unfold cdisc_key in E. destruct H as [full Hf].
      by rewrite Hf in E.
  - rewrite IH. destruct (cdisc_key r) as [k|] eqn:E; [|done].
    apply cdisc_key_Some in E as [Hm _]. done.
Qed.

(** The secondary index counts the composite keys of the mappable rows. *)
Lemma cdisc_counts_of_keys cdisc :
  cdisc_counts_of cdisc = size_of_keys (omap cdisc_key (rows cdisc)).
Proof.
  unfold cdisc_counts_of, groupby_size, cdisc_ok_of, keep_nonempty.
  rewrite map_categories_normalized. cbn [snd rows].
  by rewrite cdisc_ok_keys.
Qed.

Lemma missing_map_of_codes cdisc :
  missing_map_of cdisc = unmapped (map short_code (rows cdisc)).
Proof. unfold missing_map_of. by rewrite map_categories_normalized. Qed.

Lemma elem_of_missing_map cdisc s :
  s ∈ missing_map_of cdisc <->
  exists r, r ∈ rows cdisc /\ short_code r = s /\ ¬ mappable r.
Proof.
  rewrite missing_map_of_codes. unfold unmapped.
  rewrite elem_of_list_to_set, list_elem_of_filter, list_elem_of_fmap.
  unfold mappable. split.
  - intros [Hf (r & -> & Hr)]. exists r. split; [done|]. split; [done|].
    rewrite <- full_of_nonempty. by intros ?.
  - intros (r & Hr & <- & Hm). split; [|by exists r].
    rewrite <- full_of_nonempty in Hm. by destruct (decide (full_of (short_code r) = [])).
Qed.

Lemma cdisc_key_mappable r : is_Some (cdisc_key r) <-> mappable r.
Proof.
  unfold cdisc_key, mappable.
  destruct (CDISC_QSCAT_TO_FULL !! short_code r); split; intros [? ?]; by eauto.
Qed.

Lemma omap_cdisc_key_length (l : list (gmap str str)) :
  length (omap cdisc_key l) = length (filter mappable l).
Proof.
  induction l as [|r l IH]; [done|].
  rewrite omap_cons_eq, filter_cons.
  pose proof (cdisc_key_mappable r) as Hm.
  destruct (decide (mappable r)) as [H|H]; destruct (cdisc_key r) as [k|].
  - simpl. by rewrite IH.
  - apply Hm in H as [? ?]. done.
  - exfalso. apply H, Hm. by eauto.
  - done.
Qed.

Lemma omap_cdisc_key_filter (l : list (gmap str str)) :
  omap cdisc_key (filter mappable l) = omap cdisc_key l.
Proof.
  induction l as [|r l IH]; [done|].
  rewrite filter_cons, omap_cons_eq.
  pose proof (cdisc_key_mappable r) as Hm.
  destruct (decide (mappable r)) as [H|H].
  - by rewrite omap_cons_eq, IH.
  - rewrite IH. destruct (cdisc_key r); [|done].
    exfalso. apply H, Hm. by eauto.
Qed.

End SecondaryIndex.

(** * Running [main] *)

Section Run.

Lemma has_columns_elem {V} (df : DataFrame V) cols c :
  has_columns df cols = true -> c ∈ cols -> c ∈ columns df.
Proof.
  unfold has_columns. rewrite forallb_forall. intros H Hc.
  apply list_elem_of_In in Hc. apply H in Hc. by apply bool_decide_eq_true_1 in Hc.
Qed.

Lemma validate_spec cols db cdisc w :
  (has_columns db cols && has_columns cdisc cols = true /\
   validate cols db cdisc w = (Ok tt, w)) \/
  (exists col, col ∈ cols /\
     (((col ∉ columns db) /\
       validate cols db cdisc w =
       (Raise (SystemExit ($"Missing column '" ++ col ++ $"' in DB file: " ++ DB_FILE)), w)) \/
      ((col ∉ columns cdisc) /\ (col ∈ columns db) /\
       validate cols db cdisc w =
       (Raise (SystemExit ($"Missing column '" ++ col ++ $"' in CDISC file: " ++ CDISC_FILE)), w)))).
Proof.
  induction cols as [|c cols IH]; [by left|].
  cbn [validate].
  destruct (decide (c ∉ columns db)) as [H1|H1].
  { right. exists c. split; [by left|]. by left. }
  destruct (decide (c ∉ columns cdisc)) as [H2|H2].
  { right. exists c. split; [by left|]. right.
    split; [done|]. split; [by apply dec_stable|done]. }
  apply dec_stable in H1. apply dec_stable in H2.
  destruct IH as [[Hc Hv]|(col & Hin & Hcase)].
  - left. split; [|done]. apply andb_true_iff in Hc as [Hc1 Hc2].
    unfold has_columns in *. cbn [forallb].
    by rewrite Hc1, Hc2, !bool_decide_eq_true_2.
  - right. exists col. split; [by right|done].
Qed.

Lemma validate_has_columns cols db cdisc w e w' :
  validate cols db cdisc w = (Raise e, w') ->
  has_columns db cols && has_columns cdisc cols = false.
Proof.
  intros Hv. destruct (has_columns db cols && has_columns cdisc cols) eqn:E; [|done].
  apply andb_true_iff in E as [E1 E2].
  destruct (validate_spec cols db cdisc w) as [[_ Hok]|(col & Hin & [[Hn _]|(Hn & _ & _)])].
  - congruence.
  - exfalso. apply Hn. by eapply has_columns_elem.
  - exfalso. apply Hn. by eapply has_columns_elem.
Qed.

Lemma validate_ok db cdisc w :
  schema_ok db cdisc = true -> validate required_columns db cdisc w = (Ok tt, w).
Proof.
  intros H. destruct (validate_spec required_columns db cdisc w)
    as [[_ Hok]|(col & Hin & [[Hn _]|(Hn & _ & _)])]; [done| |].
  - exfalso. apply Hn. apply andb_true_iff in H as [H _]. by eapply has_columns_elem.
  - exfalso. apply Hn. apply andb_true_iff in H as [_ H]. by eapply has_columns_elem.
Qed.

Lemma bind_run {A B} (m : M A) (k : A -> M B) w :
  (m ≫= k) w =
  match m w with
  | (Ok a, w') => k a w'
  | (Raise e, w') => (Raise e, w')
  end.
Proof. reflexivity. Qed.

Lemma bind_ok {A B} (m : M A) (k : A -> M B) w a w' :
  m w = (Ok a, w') -> (m ≫= k) w = k a w'.
Proof. intros H. by rewrite bind_run, H. Qed.

Lemma to_csv_run df path w :
  to_csv df path w =
  (Ok tt, mkWorld (<[path := df]> (files w)) (logfile w) (stdout w)).
Proof. reflexivity. Qed.

Lemma quiet_ret {A} (a : A) : quiet (mret a).
Proof. intros w. by exists a, w. Qed.

Lemma quiet_print ln : quiet (print ln).
Proof. intros w. eexists tt, _. split; [reflexivity|]. by split. Qed.

Lemma quiet_info m : quiet (logging INFO m).
Proof.
  intros w. eexists tt, _. split; [reflexivity|]. split; [done|].
  cbn [logfile]. rewrite filter_app, filter_cons, filter_nil. cbn [fst].
  destruct (decide (INFO = WARNING)); [done|]. by rewrite app_nil_r.
Qed.

Lemma quiet_when b m : quiet m -> quiet (when b m).
Proof. intros H. destruct b; [done|]. apply quiet_ret. Qed.

Lemma quiet_bind {A B} (m : M A) (k : A -> M B) :
  quiet m -> (forall a, quiet (k a)) -> quiet (m ≫= k).
Proof.
  intros Hm Hk w. destruct (Hm w) as (a & w1 & E1 & Hf1 & Hl1).
  destruct (Hk a w1) as (b & w2 & E2 & Hf2 & Hl2).
  exists b, w2. rewrite bind_run, E1. split; [done|]. split; congruence.
Qed.

Lemma summary_raise1 mm F1 F2 w :
  $"RECON_STATUS" ∉ columns F1 ->
  summary mm F1 F2 w = (Raise (KeyError $"RECON_STATUS"), w).
Proof.
  intros H. unfold summary. rewrite bind_run. unfold getitem.
  by rewrite decide_False by done.
Qed.

Lemma summary_raise2 mm F1 F2 w :
  $"RECON_STATUS" ∈ columns F1 -> $"RECON_STATUS" ∉ columns F2 ->
  summary mm F1 F2 w = (Raise (KeyError $"RECON_STATUS"), w).
Proof.
  intros H1 H2. unfold summary. rewrite bind_run. unfold getitem.
  rewrite decide_True by done. cbn [mret M_ret]. rewrite bind_run.
  by rewrite decide_False by done.
Qed.

Lemma summary_ok mm F1 F2 w :
  $"RECON_STATUS" ∈ columns F1 -> $"RECON_STATUS" ∈ columns F2 ->
  exists w', summary mm F1 F2 w = (Ok tt, w') /\ files w' = files w /\
    filter (fun e => e.1 = WARNING) (logfile w') =
    filter (fun e => e.1 = WARNING) (logfile w).
Proof.
  intros H1 H2. unfold summary. rewrite bind_run. unfold getitem.
  rewrite decide_True by done. cbn [mret M_ret]. rewrite bind_run.
  rewrite decide_True by done. cbn [mret M_ret].
  match goal with |- context [ (?m ≫= ?k) w ] =>
    assert (Hq : quiet (m ≫= k))
  end.
  { repeat (apply quiet_bind; [|intros _]);
      try apply quiet_when; first [apply quiet_print | apply quiet_info]. }
  destruct (Hq w) as ([] & w' & E & Hf & Hl). by exists w'.
Qed.

Lemma summary_spec mm F1 F2 w :
  (summary mm F1 F2 w).1 = summary_result F1 F2 /\
  files (summary mm F1 F2 w).2 = files w /\
  filter (fun e => e.1 = WARNING) (logfile (summary mm F1 F2 w).2) =
  filter (fun e => e.1 = WARNING) (logfile w).
Proof.
  unfold summary_result.
  destruct (decide ($"RECON_STATUS" ∈ columns F1)) as [H1|H1].
  - destruct (decide ($"RECON_STATUS" ∈ columns F2)) as [H2|H2].
    + destruct (summary_ok mm F1 F2 w H1 H2) as (w' & E & Hf & Hl).
      by rewrite E.
    + by rewrite summary_raise2.
  - by rewrite summary_raise1.
Qed.

Lemma main_validated db cdisc w :
  schema_ok db cdisc = true ->
  (main db cdisc w).1 =
    summary_result (db_to_cdisc_df_of db cdisc) (cdisc_to_db_df_of db cdisc) /\
  files (main db cdisc w).2 =
    <[OUT_CDISC_TO_DB := cdisc_to_db_df_of db cdisc]>
      (<[OUT_DB_TO_CDISC := db_to_cdisc_df_of db cdisc]> (files w)) /\
  filter (fun e => e.1 = WARNING) (logfile (main db cdisc w).2) =
    filter (fun e => e.1 = WARNING) (logfile w) ++
    (if bool_decide (missing_map_of cdisc ≠ ∅)
     then [(WARNING, MissingMappings (sorted (missing_map_of cdisc)))]
     else []).
Proof.
  intros Hs. unfold main. rewrite (bind_ok _ _ _ _ _ (validate_ok db cdisc w Hs)).
  set (F1 := db_to_cdisc_df_of db cdisc). set (F2 := cdisc_to_db_df_of db cdisc).
  set (mm := missing_map_of cdisc).
  match goal with |- context [ (?m ≫= ?k) w ] => set (main_tail := (m ≫= k) w) end.
  assert (Hw : exists w1,
    when (bool_decide (mm ≠ ∅)) (logging WARNING (MissingMappings (sorted mm))) w
      = (Ok tt, w1) /\ files w1 = files w /\
    filter (fun e => e.1 = WARNING) (logfile w1) =
      filter (fun e => e.1 = WARNING) (logfile w) ++
      (if bool_decide (mm ≠ ∅) then [(WARNING, MissingMappings (sorted mm))] else [])).
  { destruct (bool_decide (mm ≠ ∅)); cbn [when].
    - eexists. split; [reflexivity|]. split; [done|]. cbn [logfile].
      rewrite filter_app, filter_cons, filter_nil. cbn [fst].
      by destruct (decide (WARNING = WARNING)).
    - exists w. by rewrite app_nil_r. }
  destruct Hw as (w1 & E1 & Hf1 & Hl1).
  assert (E : main_tail = summary mm F1 F2
                (mkWorld (<[OUT_CDISC_TO_DB := F2]>
                            (<[OUT_DB_TO_CDISC := F1]> (files w1)))
                         (logfile w1) (stdout w1))).
  { unfold main_tail. rewrite (bind_ok _ _ _ _ _ E1).
    rewrite (bind_ok _ _ _ _ _ (to_csv_run F1 OUT_DB_TO_CDISC w1)).
    by rewrite (bind_ok _ _ _ _ _ (to_csv_run F2 OUT_CDISC_TO_DB _)). }
  rewrite E.
  match goal with |- context [ summary mm F1 F2 ?w2 ] =>
    destruct (summary_spec mm F1 F2 w2) as (Hr & Hf & Hl)
  end.
  rewrite Hr, Hf, Hl. cbn [files logfile]. by rewrite Hf1, Hl1.
Qed.

End Run.

(** * The two output frames *)

Section Outputs.

Lemma pass1_row_eq idx r :
  pass1_row (dom idx) idx (db_row_n r) =
  <[$"COMMENT" := CStr (p1_comment idx (db_key r))]>
    (<[$"CDISC_ROW_COUNT_FOR_KEY" := CInt (p1_count idx (db_key r))]>
       (<[$"RECON_STATUS" := CStr (p1_status idx (db_key r))]>
          (CStr <$> db_row_n r))).
Proof.
  unfold pass1_row, p1_comment, p1_count, p1_status.
  change (cell_of (db_row_n r) $"USUBJID_N", cell_of (db_row_n r) $"VISIT_N",
          cell_of (db_row_n r) $"QSCAT_FULL_N")
    with (row_key (db_row_n r) $"USUBJID_N" $"VISIT_N" $"QSCAT_FULL_N").
  rewrite db_row_n_key. by destruct (decide (db_key r ∈ dom idx)).
Qed.

Lemma db_to_cdisc_rows db cdisc :
  rows (db_to_cdisc_df_of db cdisc) =
  map (p1_out (cdisc_counts_of cdisc)) (rows db).
Proof.
  unfold db_to_cdisc_df_of, drop_columns, DataFrame_of_records. cbn [rows].
  by rewrite normalize_db_rows, !map_map.
Qed.

Lemma p1_out_status idx r :
  p1_out idx r !! $"RECON_STATUS" = Some (CStr (p1_status idx (db_key r))).
Proof.
  unfold p1_out, helper_columns. cbn [foldr]. rewrite pass1_row_eq.
  rewrite !lookup_delete_ne by discriminate.
  rewrite !lookup_insert_ne by discriminate. by rewrite lookup_insert_eq.
Qed.

Lemma p1_out_count idx r :
  p1_out idx r !! $"CDISC_ROW_COUNT_FOR_KEY" =
  Some (CInt (p1_count idx (db_key r))).
Proof.
  unfold p1_out, helper_columns. cbn [foldr]. rewrite pass1_row_eq.
  rewrite !lookup_delete_ne by discriminate.
  rewrite !lookup_insert_ne by discriminate. by rewrite lookup_insert_eq.
Qed.

Lemma p1_out_comment idx r :
  p1_out idx r !! $"COMMENT" = Some (CStr (p1_comment idx (db_key r))).
Proof.
  unfold p1_out, helper_columns. cbn [foldr]. rewrite pass1_row_eq.
  rewrite !lookup_delete_ne by discriminate. by rewrite lookup_insert_eq.
Qed.

Lemma p1_out_other idx r c :
  c ∉ written_columns -> p1_out idx r !! c = CStr <$> r !! c.
Proof.
  unfold written_columns. rewrite !not_elem_of_cons.
  intros (H1 & H2 & H3 & H4 & H5 & H6 & _).
  unfold p1_out, helper_columns. cbn [foldr]. rewrite pass1_row_eq.
  rewrite !lookup_delete_ne by done. rewrite !lookup_insert_ne by done.
  rewrite lookup_fmap. unfold db_row_n. by rewrite !lookup_insert_ne by done.
Qed.

Lemma p1_out_cell idx r c :
  c ∉ written_columns -> out_cell (p1_out idx r) c = cell_of r c.
Proof.
  intros H. unfold out_cell, cell_of. rewrite (p1_out_other idx r c H).
  by destruct (r !! c).
Qed.

Lemma p1_out_key idx r : p1_key (p1_out idx r) = db_key r.
Proof.
  unfold p1_key, db_key.
  rewrite !p1_out_cell; [done| | |];
    unfold written_columns; rewrite !not_elem_of_cons;
    repeat split; try discriminate; apply not_elem_of_nil.
Qed.

Lemma elem_of_columns_records (l : list (gmap str cell)) c :
  c ∈ columns (DataFrame_of_records l) <-> exists o, o ∈ l /\ is_Some (o !! c).
Proof.
  unfold DataFrame_of_records. cbn [columns]. rewrite elem_of_union_list.
  split.
  - intros (X & HX & Hc). apply list_elem_of_fmap in HX as (o & -> & Ho).
    exists o. split; [done|]. by apply elem_of_dom.
  - intros (o & Ho & Hc). exists (dom o). split; [|by apply elem_of_dom].
    apply list_elem_of_fmap. by exists o.
Qed.

Lemma db_to_cdisc_has_status db cdisc :
  $"RECON_STATUS" ∈ columns (db_to_cdisc_df_of db cdisc) <-> rows db ≠ [].
Proof.
  unfold db_to_cdisc_df_of, drop_columns. cbn [columns].
  rewrite elem_of_difference, elem_of_columns_records, normalize_db_rows.
  split.
  - intros [(o & Ho & _) _] E. rewrite E in Ho. by apply elem_of_nil in Ho.
  - intros Hne. destruct (rows db) as [|r l]; [done|]. split.
    + exists (pass1_row (dom (cdisc_counts_of cdisc)) (cdisc_counts_of cdisc)
                       (db_row_n r)).
      split; [cbn [map]; by left|]. rewrite pass1_row_eq.
      rewrite !lookup_insert_ne by discriminate. rewrite lookup_insert_eq. by eauto.
    + rewrite elem_of_list_to_set, !elem_of_cons.
      intros [H|[H|[H|H]]]; try discriminate. by apply elem_of_nil in H.
Qed.

Lemma pass2_row_eq idx k n :
  pass2_row (dom idx) idx (k, n) =
  list_to_map
    [ ($"USUBJID", CStr k.1.1);
      ($"VISIT", CStr k.1.2);
      ($"QSCAT_FULL", CStr k.2);
      ($"RECON_STATUS", CStr (p2_status idx k));
      ($"CDISC_ROW_COUNT_FOR_KEY", CInt n);
      ($"DB_ROW_COUNT_FOR_KEY", CInt (p2_count idx k));
      ($"COMMENT", CStr (if decide (k ∈ dom idx) then $"FOUND_IN_DB"
                         else $"NO_MATCHING_DB_RECORD_KEY")) ].
Proof.
  destruct k as [[a b] c]. unfold pass2_row, p2_status, p2_count.
  by destruct (decide ((a, b, c) ∈ dom idx)).
Qed.

Lemma pass2_row_lookups idx k n :
  let o := pass2_row (dom idx) idx (k, n) in
  p2_key o = k /\
  o !! $"RECON_STATUS" = Some (CStr (p2_status idx k)) /\
  o !! $"CDISC_ROW_COUNT_FOR_KEY" = Some (CInt n) /\
  o !! $"DB_ROW_COUNT_FOR_KEY" = Some (CInt (p2_count idx k)).
Proof.
  cbn zeta. rewrite pass2_row_eq. cbn [list_to_map foldr fst snd uncurry].
  unfold p2_key, out_cell.
  repeat split;
    repeat first [rewrite lookup_insert_eq | rewrite lookup_insert_ne by discriminate];
    try done.
  by destruct k as [[a b] c].
Qed.

Lemma cdisc_to_db_rows db cdisc :
  rows (cdisc_to_db_df_of db cdisc) =
  map (pass2_row (dom (db_counts_of db)) (db_counts_of db))
      (dict_items (cdisc_counts_of cdisc)).
Proof. reflexivity. Qed.

Lemma dict_items_perm d : dict_items d ≡ₚ map_to_list d.
Proof. apply merge_sort_Permutation. Qed.

Lemma elem_of_dict_items d k n : (k, n) ∈ dict_items d <-> d !! k = Some n.
Proof. rewrite dict_items_perm. apply elem_of_map_to_list. Qed.

Lemma dict_items_NoDup d : NoDup (map fst (dict_items d)).
Proof.
  assert (H : map fst (dict_items d) ≡ₚ map fst (map_to_list d))
    by (by rewrite dict_items_perm).
  rewrite H. apply NoDup_fst_map_to_list.
Qed.

Lemma dict_items_nil d : dict_items d = [] <-> d = ∅.
Proof.
  split.
  - intros H. apply map_to_list_empty_iff, Permutation_nil_r.
    by rewrite <- dict_items_perm, H.
  - intros ->. apply Permutation_nil_r. rewrite dict_items_perm.
    by rewrite map_to_list_empty.
Qed.

Lemma cdisc_to_db_has_status db cdisc :
  $"RECON_STATUS" ∈ columns (cdisc_to_db_df_of db cdisc) <->
  cdisc_counts_of cdisc ≠ ∅.
Proof.
  unfold cdisc_to_db_df_of. rewrite elem_of_columns_records.
  rewrite <- dict_items_nil. split.
  - intros (o & Ho & _) E. rewrite E in Ho. by apply elem_of_nil in Ho.
  - intros Hne. destruct (dict_items (cdisc_counts_of cdisc)) as [|[k n] l]; [done|].
    eexists. split; [cbn [map]; by left|].
    destruct (pass2_row_lookups (db_counts_of db) k n) as (_ & -> & _). by eauto.
Qed.

End Outputs.

(** * The reconciliation properties *)

Section Reconciliation.

Lemma main_out1 db cdisc w :
  schema_ok db cdisc = true ->
  files (main db cdisc w).2 !! OUT_DB_TO_CDISC = Some (db_to_cdisc_df_of db cdisc).
Proof.
  intros Hs. destruct (main_validated db cdisc w Hs) as (_ & -> & _).
  rewrite lookup_insert_ne by discriminate. apply lookup_insert_eq.
Qed.

Lemma main_out2 db cdisc w :
  schema_ok db cdisc = true ->
  files (main db cdisc w).2 !! OUT_CDISC_TO_DB = Some (cdisc_to_db_df_of db cdisc).
Proof.
  intros Hs. destruct (main_validated db cdisc w Hs) as (_ & -> & _).
  apply lookup_insert_eq.
Qed.

Lemma p1_row_lookup db cdisc i r :
  rows db !! i = Some r ->
  rows (db_to_cdisc_df_of db cdisc) !! i = Some (p1_out (cdisc_counts_of cdisc) r).
Proof.
  intros H. rewrite db_to_cdisc_rows.
  change (map ?f ?l) with (f <$> l). by rewrite list_lookup_fmap, H.
Qed.

Lemma p1_row_elem db cdisc o :
  o ∈ rows (db_to_cdisc_df_of db cdisc) ->
  exists r, r ∈ rows db /\ o = p1_out (cdisc_counts_of cdisc) r.
Proof.
  rewrite db_to_cdisc_rows. change (map ?f ?l) with (f <$> l).
  rewrite list_elem_of_fmap. intros (r & -> & Hr). by exists r.
Qed.

Lemma index_positive keys k n : size_of_keys keys !! k = Some n -> 1 <= n.
Proof. intros H. by apply size_of_keys_Some in H as [_ H]. Qed.

Lemma p2_count_get idx k : p2_count idx k = dict_get idx k.
Proof.
  unfold p2_count, dict_get. destruct (decide (k ∈ dom idx)) as [H|H]; [done|].
  apply not_elem_of_dom in H. by rewrite H.
Qed.

End Reconciliation.

(** C1: once both frames carry the required columns, the row that the first
    pass writes for the primary record at position [i] has status
    AVAILABLE_IN_CDISC and the secondary index's count when the record's
    composite key is in the secondary index, and status MISSING_IN_CDISC
    with count 0 when it is not. *)
Theorem C1_pass1_status (db cdisc : DataFrame str) (w : World)
    (i : nat) (r : gmap str str) :
  schema_ok db cdisc = true ->
  rows db !! i = Some r ->
  exists F o,
    files (main db cdisc w).2 !! OUT_DB_TO_CDISC = Some F /\
    rows F !! i = Some o /\
    (db_key r ∈ dom (cdisc_counts_of cdisc) ->
       o !! $"RECON_STATUS" = Some (CStr $"AVAILABLE_IN_CDISC") /\
       exists n, cdisc_counts_of cdisc !! db_key r = Some n /\
                 o !! $"CDISC_ROW_COUNT_FOR_KEY" = Some (CInt n)) /\
    (db_key r ∉ dom (cdisc_counts_of cdisc) ->
       o !! $"RECON_STATUS" = Some (CStr $"MISSING_IN_CDISC") /\
       o !! $"CDISC_ROW_COUNT_FOR_KEY" = Some (CInt 0)).
Proof.
  intros Hs Hr. exists (db_to_cdisc_df_of db cdisc), (p1_out (cdisc_counts_of cdisc) r).
  split; [by apply main_out1|]. split; [by apply p1_row_lookup|].
  rewrite p1_out_status, p1_out_count. unfold p1_status, p1_count, dict_get.
  split; intros Hk.
  - rewrite !decide_True by done. split; [done|].
    apply elem_of_dom in Hk as [n Hn]. exists n. by rewrite Hn.
  - by rewrite !decide_False by done.
Qed.

Lemma C1_pass1_status_witness :
  exists F o,
    files (main ex_db ex_cdisc w0).2 !! OUT_DB_TO_CDISC = Some F /\
    rows F !! 0 = Some o /\
    (db_key ex_row_db ∈ dom (cdisc_counts_of ex_cdisc) ->
       o !! $"RECON_STATUS" = Some (CStr $"AVAILABLE_IN_CDISC") /\
       exists n, cdisc_counts_of ex_cdisc !! db_key ex_row_db = Some n /\
                 o !! $"CDISC_ROW_COUNT_FOR_KEY" = Some (CInt n)) /\
    (db_key ex_row_db ∉ dom (cdisc_counts_of ex_cdisc) ->
       o !! $"RECON_STATUS" = Some (CStr $"MISSING_IN_CDISC") /\
       o !! $"CDISC_ROW_COUNT_FOR_KEY" = Some (CInt 0)).
Proof.
  apply (C1_pass1_status ex_db ex_cdisc w0 0 ex_row_db);
    vm_compute; reflexivity.
Defined.

(** C3: the first output has one row per primary record, in input order:
    the row at position [i] carries every column of the record at position
    [i] other than the six names the program writes itself, and carries the
    record's composite key; two output rows with the same composite key
    carry the same secondary count. *)
Theorem C3_pass1_round_trip (db cdisc : DataFrame str) (w : World) :
  schema_ok db cdisc = true ->
  exists F,
    files (main db cdisc w).2 !! OUT_DB_TO_CDISC = Some F /\
    length (rows F) = length (rows db) /\
    (forall i r, rows db !! i = Some r ->
       exists o, rows F !! i = Some o /\ p1_key o = db_key r /\
         forall c, c ∉ written_columns -> o !! c = CStr <$> r !! c) /\
    (forall o1 o2, o1 ∈ rows F -> o2 ∈ rows F -> p1_key o1 = p1_key o2 ->
       o1 !! $"CDISC_ROW_COUNT_FOR_KEY" = o2 !! $"CDISC_ROW_COUNT_FOR_KEY").
Proof.
  intros Hs. exists (db_to_cdisc_df_of db cdisc).
  split; [by apply main_out1|]. split.
  { by rewrite db_to_cdisc_rows, length_map. }
  split.
  - intros i r Hr. exists (p1_out (cdisc_counts_of cdisc) r).
    split; [by apply p1_row_lookup|]. split; [apply p1_out_key|].
    intros c Hc. by apply p1_out_other.
  - intros o1 o2 H1 H2 Hk.
    apply p1_row_elem in H1 as (r1 & _ & ->).
    apply p1_row_elem in H2 as (r2 & _ & ->).
    rewrite !p1_out_key in Hk. by rewrite !p1_out_count, Hk.
Qed.

Lemma C3_pass1_round_trip_witness :
  exists F,
    files (main ex_db ex_cdisc w0).2 !! OUT_DB_TO_CDISC = Some F /\
    length (rows F) = length (rows ex_db) /\
    (forall i r, rows ex_db !! i = Some r ->
       exists o, rows F !! i = Some o /\ p1_key o = db_key r /\
         forall c, c ∉ written_columns -> o !! c = CStr <$> r !! c) /\
    (forall o1 o2, o1 ∈ rows F -> o2 ∈ rows F -> p1_key o1 = p1_key o2 ->
       o1 !! $"CDISC_ROW_COUNT_FOR_KEY" = o2 !! $"CDISC_ROW_COUNT_FOR_KEY").
Proof.
  apply (C3_pass1_round_trip ex_db ex_cdisc w0). vm_compute. reflexivity.
Defined.

Section Pass2.

Lemma p2_row_elem db cdisc o :
  o ∈ rows (cdisc_to_db_df_of db cdisc) ->
  exists k n, cdisc_counts_of cdisc !! k = Some n /\
    o = pass2_row (dom (db_counts_of db)) (db_counts_of db) (k, n).
Proof.
  rewrite cdisc_to_db_rows. change (map ?f ?l) with (f <$> l).
  rewrite list_elem_of_fmap. intros ([k n] & -> & H).
  apply elem_of_dict_items in H. by exists k, n.
Qed.

Lemma filter_p2_key idx k (items : list (Key * nat)) :
  length (filter (fun o => p2_key o = k) (map (pass2_row (dom idx) idx) items)) =
  length (filter (fun kn => kn.1 = k) items).
Proof.
  induction items as [|[k' n] l IH]; [done|].
  cbn [map]. rewrite !filter_cons. cbn [fst].
  destruct (pass2_row_lookups idx k' n) as (-> & _).
  destruct (decide (k' = k)); cbn [length]; by rewrite IH.
Qed.

Lemma filter_fst_absent (items : list (Key * nat)) k :
  k ∉ map fst items -> length (filter (fun kn => kn.1 = k) items) = 0.
Proof.
  induction items as [|[k' n] l IH]; [done|].
  cbn [map fst]. rewrite not_elem_of_cons, filter_cons. cbn [fst].
  intros [Hne Hnot]. destruct (decide (k' = k)); [congruence|by apply IH].
Qed.

Lemma filter_fst_NoDup (items : list (Key * nat)) k :
  NoDup (map fst items) -> k ∈ map fst items ->
  length (filter (fun kn => kn.1 = k) items) = 1.
Proof.
  induction items as [|[k' n] l IH]; cbn [map fst].
  - intros _ H. by apply elem_of_nil in H.
  - rewrite NoDup_cons, elem_of_cons, filter_cons. cbn [fst].
    intros [Hnot Hnd] Hin. destruct (decide (k' = k)) as [->|Hne].
    + cbn [length]. f_equal. by apply filter_fst_absent.
    + apply IH; [done|]. destruct Hin as [?|?]; [congruence|done].
Qed.

Lemma p2_one_row db cdisc k :
  k ∈ dom (cdisc_counts_of cdisc) ->
  length (filter (fun o => p2_key o = k) (rows (cdisc_to_db_df_of db cdisc))) = 1.
Proof.
  intros Hk. rewrite cdisc_to_db_rows, filter_p2_key.
  apply filter_fst_NoDup; [apply dict_items_NoDup|].
  apply elem_of_dom in Hk as [n Hn]. apply elem_of_dict_items in Hn.
  change (map fst ?l) with (fst <$> l). apply list_elem_of_fmap. by exists (k, n).
Qed.

Lemma cdisc_index_dom cdisc k :
  k ∈ dom (cdisc_counts_of cdisc) <->
  exists r, r ∈ rows cdisc /\ cdisc_key r = Some k.
Proof.
  rewrite cdisc_counts_of_keys, size_of_keys_dom, list_elem_of_omap. done.
Qed.

End Pass2.

(** C2: the second output has exactly one row for each composite key of the
    secondary index, and the index holds the keys of the mappable secondary
    rows only; each row carries the key, the number of mappable secondary
    rows with that key, and status AVAILABLE_IN_DB with the primary index's
    count when the key is in the primary index, status MISSING_IN_DB with
    primary count 0 otherwise. *)
Theorem C2_pass2_one_row_per_key (db cdisc : DataFrame str) (w : World) :
  schema_ok db cdisc = true ->
  exists F,
    files (main db cdisc w).2 !! OUT_CDISC_TO_DB = Some F /\
    (forall k, k ∈ dom (cdisc_counts_of cdisc) <->
               exists r, r ∈ rows cdisc /\ cdisc_key r = Some k) /\
    (forall k, k ∈ dom (cdisc_counts_of cdisc) ->
       length (filter (fun o => p2_key o = k) (rows F)) = 1) /\
    (forall o, o ∈ rows F ->
       exists n,
         cdisc_counts_of cdisc !! p2_key o = Some n /\
         n = count_key (p2_key o) (omap cdisc_key (rows cdisc)) /\
         o !! $"CDISC_ROW_COUNT_FOR_KEY" = Some (CInt n) /\
         (p2_key o ∈ dom (db_counts_of db) ->
            o !! $"RECON_STATUS" = Some (CStr $"AVAILABLE_IN_DB") /\
            exists m, db_counts_of db !! p2_key o = Some m /\
                      o !! $"DB_ROW_COUNT_FOR_KEY" = Some (CInt m)) /\
         (p2_key o ∉ dom (db_counts_of db) ->
            o !! $"RECON_STATUS" = Some (CStr $"MISSING_IN_DB") /\
            o !! $"DB_ROW_COUNT_FOR_KEY" = Some (CInt 0))).
Proof.
  intros Hs. exists (cdisc_to_db_df_of db cdisc).
  split; [by apply main_out2|]. split; [apply cdisc_index_dom|].
  split; [intros k; apply p2_one_row|].
  intros o Ho. apply p2_row_elem in Ho as (k & n & Hn & ->).
  destruct (pass2_row_lookups (db_counts_of db) k n) as (-> & -> & -> & ->).
  exists n. split; [done|]. split.
  { rewrite cdisc_counts_of_keys in Hn. by apply size_of_keys_Some in Hn as [-> _]. }
  split; [done|]. unfold p2_status, p2_count, dict_get. split; intros Hk.
  - rewrite !decide_True by done. split; [done|].
    apply elem_of_dom in Hk as [m Hm]. exists m. by rewrite Hm.
  - by rewrite !decide_False by done.
Qed.

Lemma C2_pass2_one_row_per_key_witness :
  exists F,
    files (main ex_db ex_cdisc w0).2 !! OUT_CDISC_TO_DB = Some F /\
    (forall k, k ∈ dom (cdisc_counts_of ex_cdisc) <->
               exists r, r ∈ rows ex_cdisc /\ cdisc_key r = Some k) /\
    (forall k, k ∈ dom (cdisc_counts_of ex_cdisc) ->
       length (filter (fun o => p2_key o = k) (rows F)) = 1) /\
    (forall o, o ∈ rows F ->
       exists n,
         cdisc_counts_of ex_cdisc !! p2_key o = Some n /\
         n = count_key (p2_key o) (omap cdisc_key (rows ex_cdisc)) /\
         o !! $"CDISC_ROW_COUNT_FOR_KEY" = Some (CInt n) /\
         (p2_key o ∈ dom (db_counts_of ex_db) ->
            o !! $"RECON_STATUS" = Some (CStr $"AVAILABLE_IN_DB") /\
            exists m, db_counts_of ex_db !! p2_key o = Some m /\
                      o !! $"DB_ROW_COUNT_FOR_KEY" = Some (CInt m)) /\
         (p2_key o ∉ dom (db_counts_of ex_db) ->
            o !! $"RECON_STATUS" = Some (CStr $"MISSING_IN_DB") /\
            o !! $"DB_ROW_COUNT_FOR_KEY" = Some (CInt 0))).
Proof.
  apply (C2_pass2_one_row_per_key ex_db ex_cdisc w0). vm_compute. reflexivity.
Defined.

(** C6: in each index the counts add up to the number of contributing
    records, all rows for the primary frame and the mappable rows for the
    secondary frame, and reordering the rows of a frame leaves its index
    unchanged. *)
Theorem C6_index_sum_and_order (db db' cdisc cdisc' : DataFrame str) :
  rows db ≡ₚ rows db' ->
  rows cdisc ≡ₚ rows cdisc' ->
  sum_counts (db_counts_of db) = length (rows db) /\
  sum_counts (cdisc_counts_of cdisc) = length (filter mappable (rows cdisc)) /\
  db_counts_of db = db_counts_of db' /\
  cdisc_counts_of cdisc = cdisc_counts_of cdisc'.
Proof.
  intros Hdb Hcd. rewrite !db_counts_of_keys, !cdisc_counts_of_keys.
  rewrite !sum_counts_size_of_keys, length_map, omap_cdisc_key_length.
  split; [done|]. split; [done|]. split.
  - apply size_of_keys_perm. change (map ?f ?l) with (f <$> l). by rewrite Hdb.
  - apply size_of_keys_perm. by rewrite Hcd.
Qed.

Lemma C6_index_sum_and_order_witness :
  sum_counts (db_counts_of ex_db) = length (rows ex_db) /\
  sum_counts (cdisc_counts_of ex_cdisc) = length (filter mappable (rows ex_cdisc)) /\
  db_counts_of ex_db = db_counts_of (mkDF header [ex_row_db; ex_row_db2; ex_row_db]) /\
  cdisc_counts_of ex_cdisc = cdisc_counts_of (mkDF header [ex_row_unknown; ex_row_cdisc]).
Proof.
  apply (C6_index_sum_and_order ex_db (mkDF header [ex_row_db; ex_row_db2; ex_row_db])
           ex_cdisc (mkDF header [ex_row_unknown; ex_row_cdisc])).
  - cbn [rows]. apply perm_skip, perm_swap.
  - cbn [rows]. apply perm_swap.
Defined.

Section CrossPass.

Lemma filter_p1_key (idx : gmap Key nat) (k : Key) (l : list (gmap str str)) :
  length (filter (fun o => p1_key o = k) (map (p1_out idx) l)) =
  count_key k (map db_key l).
Proof.
  unfold count_key. induction l as [|r l IH]; [done|].
  cbn [map]. rewrite !filter_cons, p1_out_key.
  destruct (decide (db_key r = k)); cbn [length]; by rewrite IH.
Qed.

Lemma p1_rows_for_key db cdisc (k : Key) :
  length (filter (fun o => p1_key o = k) (rows (db_to_cdisc_df_of db cdisc))) =
  dict_get (db_counts_of db) k.
Proof.
  by rewrite db_to_cdisc_rows, filter_p1_key, db_counts_of_keys, size_of_keys_get.
Qed.

End CrossPass.

(** C9: for every composite key [k] of the secondary index, the number of
    rows of the first output whose key is [k] is the primary index's count
    for [k], which is 0 when no primary record has key [k], and it is the
    DB_ROW_COUNT_FOR_KEY of the row that the second output has for [k]. *)
Theorem C9_cross_pass_counts (db cdisc : DataFrame str) (w : World) (k : Key) :
  schema_ok db cdisc = true ->
  k ∈ dom (cdisc_counts_of cdisc) ->
  exists F1 F2 o2,
    files (main db cdisc w).2 !! OUT_DB_TO_CDISC = Some F1 /\
    files (main db cdisc w).2 !! OUT_CDISC_TO_DB = Some F2 /\
    length (filter (fun o => p1_key o = k) (rows F1)) = dict_get (db_counts_of db) k /\
    (k ∉ map db_key (rows db) -> dict_get (db_counts_of db) k = 0) /\
    o2 ∈ rows F2 /\ p2_key o2 = k /\
    o2 !! $"DB_ROW_COUNT_FOR_KEY" = Some (CInt (dict_get (db_counts_of db) k)).
Proof.
  intros Hs Hk.
  apply elem_of_dom in Hk as [n Hn].
  exists (db_to_cdisc_df_of db cdisc), (cdisc_to_db_df_of db cdisc),
         (pass2_row (dom (db_counts_of db)) (db_counts_of db) (k, n)).
  split; [by apply main_out1|]. split; [by apply main_out2|].
  split; [apply p1_rows_for_key|]. split.
  { intros Hnot. rewrite db_counts_of_keys, size_of_keys_get.
    destruct (count_key k (map db_key (rows db))) eqn:E; [done|].
    exfalso. apply Hnot, count_key_pos. lia. }
  destruct (pass2_row_lookups (db_counts_of db) k n) as (Hkey & _ & _ & Hc).
  split; [|split; [done|by rewrite Hc, p2_count_get]].
  rewrite cdisc_to_db_rows. change (map ?f ?l) with (f <$> l).
  apply list_elem_of_fmap. exists (k, n). split; [done|].
  by apply elem_of_dict_items.
Qed.

Lemma C9_cross_pass_counts_witness :
  exists F1 F2 o2,
    files (main ex_db ex_cdisc w0).2 !! OUT_DB_TO_CDISC = Some F1 /\
    files (main ex_db ex_cdisc w0).2 !! OUT_CDISC_TO_DB = Some F2 /\
    length (filter (fun o => p1_key o = db_key ex_row_db) (rows F1)) =
      dict_get (db_counts_of ex_db) (db_key ex_row_db) /\
    (db_key ex_row_db ∉ map db_key (rows ex_db) ->
       dict_get (db_counts_of ex_db) (db_key ex_row_db) = 0) /\
    o2 ∈ rows F2 /\ p2_key o2 = db_key ex_row_db /\
    o2 !! $"DB_ROW_COUNT_FOR_KEY" =
      Some (CInt (dict_get (db_counts_of ex_db) (db_key ex_row_db))).
Proof.
  apply (C9_cross_pass_counts ex_db ex_cdisc w0 (db_key ex_row_db)).
  - vm_compute. reflexivity.
  - apply elem_of_dom. vm_compute. eexists. reflexivity.
Defined.

(** C10: in every row of the first output the secondary count is 0 exactly
    when the status is MISSING_IN_CDISC, and it is at least 1 when the
    status is AVAILABLE_IN_CDISC; in every row of the second output the
    primary count is 0 exactly when the status is MISSING_IN_DB, and the
    secondary count is at least 1. *)
Theorem C10_status_count_invariant (db cdisc : DataFrame str) (w : World) :
  schema_ok db cdisc = true ->
  exists F1 F2,
    files (main db cdisc w).2 !! OUT_DB_TO_CDISC = Some F1 /\
    files (main db cdisc w).2 !! OUT_CDISC_TO_DB = Some F2 /\
    (forall o, o ∈ rows F1 ->
       exists n, o !! $"CDISC_ROW_COUNT_FOR_KEY" = Some (CInt n) /\
         (n = 0 <-> o !! $"RECON_STATUS" = Some (CStr $"MISSING_IN_CDISC")) /\
         (o !! $"RECON_STATUS" = Some (CStr $"AVAILABLE_IN_CDISC") -> 1 <= n)) /\
    (forall o, o ∈ rows F2 ->
       exists n m, o !! $"DB_ROW_COUNT_FOR_KEY" = Some (CInt n) /\
         (n = 0 <-> o !! $"RECON_STATUS" = Some (CStr $"MISSING_IN_DB")) /\
         o !! $"CDISC_ROW_COUNT_FOR_KEY" = Some (CInt m) /\ 1 <= m).
Proof.
  intros Hs. exists (db_to_cdisc_df_of db cdisc), (cdisc_to_db_df_of db cdisc).
  split; [by apply main_out1|]. split; [by apply main_out2|]. split.
  - intros o Ho. apply p1_row_elem in Ho as (r & _ & ->).
    rewrite p1_out_status, p1_out_count. eexists. split; [done|].
    unfold p1_count, p1_status, dict_get.
    destruct (decide (db_key r ∈ dom (cdisc_counts_of cdisc))) as [Hk|Hk].
    + apply elem_of_dom in Hk as [n Hn]. rewrite Hn. cbn [default].
      rewrite cdisc_counts_of_keys in Hn. apply index_positive in Hn.
      unfold id. split; [split; [lia|discriminate]|intros _; lia].
    + split; [done|discriminate].
  - intros o Ho. apply p2_row_elem in Ho as (k & n & Hn & ->).
    destruct (pass2_row_lookups (db_counts_of db) k n) as (_ & -> & -> & ->).
    exists (p2_count (db_counts_of db) k), n. split; [done|].
    rewrite cdisc_counts_of_keys in Hn. apply index_positive in Hn.
    split; [|done]. unfold p2_count, p2_status, dict_get.
    destruct (decide (k ∈ dom (db_counts_of db))) as [Hk|Hk]; [|done].
    apply elem_of_dom in Hk as [m Hm]. rewrite Hm. cbn [default].
    rewrite db_counts_of_keys in Hm. apply index_positive in Hm.
    unfold id. split; [lia|discriminate].
Qed.

Lemma C10_status_count_invariant_witness :
  exists F1 F2,
    files (main ex_db ex_cdisc w0).2 !! OUT_DB_TO_CDISC = Some F1 /\
    files (main ex_db ex_cdisc w0).2 !! OUT_CDISC_TO_DB = Some F2 /\
    (forall o, o ∈ rows F1 ->
       exists n, o !! $"CDISC_ROW_COUNT_FOR_KEY" = Some (CInt n) /\
         (n = 0 <-> o !! $"RECON_STATUS" = Some (CStr $"MISSING_IN_CDISC")) /\
         (o !! $"RECON_STATUS" = Some (CStr $"AVAILABLE_IN_CDISC") -> 1 <= n)) /\
    (forall o, o ∈ rows F2 ->
       exists n m, o !! $"DB_ROW_COUNT_FOR_KEY" = Some (CInt n) /\
         (n = 0 <-> o !! $"RECON_STATUS" = Some (CStr $"MISSING_IN_DB")) /\
         o !! $"CDISC_ROW_COUNT_FOR_KEY" = Some (CInt m) /\ 1 <= m).
Proof.
  apply (C10_status_count_invariant ex_db ex_cdisc w0). vm_compute. reflexivity.
Defined.

(** C7, at an input where the claim fails: the only secondary row carries
    an unmapped code.  The code is collected and the warning logged, both
    outputs are written (the second one empty), and then the summary reads
    the RECON_STATUS column of the empty second frame: the run ends with
    KeyError and exit status 1. *)
Theorem C7_all_rows_unmapped_aborts :
  schema_ok ex_db ex_cdisc_unknown = true /\
  missing_map_of ex_cdisc_unknown = {[ $"UNKNOWN_CODE" ]} /\
  logfile (main ex_db ex_cdisc_unknown w0).2 =
    [(WARNING, MissingMappings [$"UNKNOWN_CODE"])] /\
  rows <$> files (main ex_db ex_cdisc_unknown w0).2 !! OUT_CDISC_TO_DB = Some [] /\
  (main ex_db ex_cdisc_unknown w0).1 = Raise (KeyError $"RECON_STATUS") /\
  exit_status (main ex_db ex_cdisc_unknown w0).1 = 1%Z.
Proof.
  split; [vm_compute; reflexivity|].
  split; [vm_compute; reflexivity|].
  split; [vm_compute; reflexivity|].
  split; [vm_compute; reflexivity|].
  split; vm_compute; reflexivity.
Qed.

(** C8, at an input where the claim fails: both files have the three
    required columns and the primary file has no data row.  Both outputs
    are written, and the summary then reads the RECON_STATUS column of the
    first output frame, which has no columns: the run ends with KeyError and
    exit status 1 instead of 0. *)
Theorem C8_empty_primary_exits_nonzero :
  schema_ok ex_db_empty ex_cdisc = true /\
  is_Some (files (main ex_db_empty ex_cdisc w0).2 !! OUT_DB_TO_CDISC) /\
  is_Some (files (main ex_db_empty ex_cdisc w0).2 !! OUT_CDISC_TO_DB) /\
  (main ex_db_empty ex_cdisc w0).1 = Raise (KeyError $"RECON_STATUS") /\
  exit_status (main ex_db_empty ex_cdisc w0).1 = 1%Z.
Proof.
  split; [vm_compute; reflexivity|].
  split; [rewrite main_out1 by (vm_compute; reflexivity); by eauto|].
  split; [rewrite main_out2 by (vm_compute; reflexivity); by eauto|].
  split; vm_compute; reflexivity.
Qed.

(** * Further properties of the run *)

Section RunOutcome.

Lemma main_raise_validate db cdisc w e :
  validate required_columns db cdisc w = (Raise e, w) ->
  main db cdisc w = (Raise e, w).
Proof. intros H. unfold main. by rewrite bind_run, H. Qed.

Lemma schema_ok_false_validate db cdisc w :
  schema_ok db cdisc = false ->
  exists col,
    col ∈ required_columns /\
    (((col ∉ columns db) /\
      validate required_columns db cdisc w =
      (Raise (SystemExit ($"Missing column '" ++ col ++ $"' in DB file: " ++ DB_FILE)), w)) \/
     ((col ∉ columns cdisc) /\ (col ∈ columns db) /\
      validate required_columns db cdisc w =
      (Raise (SystemExit ($"Missing column '" ++ col ++ $"' in CDISC file: " ++ CDISC_FILE)), w))).
Proof.
  intros Hs. destruct (validate_spec required_columns db cdisc w) as [[Hc _]|H].
  - unfold schema_ok in Hs. congruence.
  - exact H.
Qed.

Lemma index_nonempty cdisc :
  cdisc_counts_of cdisc ≠ ∅ <-> exists r, r ∈ rows cdisc /\ mappable r.
Proof.
  split.
  - intros Hne. apply map_choose in Hne as (k & n & Hk).
    assert (Hd : k ∈ dom (cdisc_counts_of cdisc)) by (apply elem_of_dom; eauto).
    apply cdisc_index_dom in Hd as (r & Hr & Hkey).
    exists r. split; [done|]. apply cdisc_key_mappable. by eauto.
  - intros (r & Hr & Hm) E. apply cdisc_key_mappable in Hm as [k Hk].
    assert (Hd : k ∈ dom (cdisc_counts_of cdisc))
      by (apply cdisc_index_dom; eauto).
    rewrite E in Hd. by apply not_elem_of_empty in Hd.
Qed.

Lemma missing_map_nonempty cdisc :
  missing_map_of cdisc ≠ ∅ <-> exists r, r ∈ rows cdisc /\ ¬ mappable r.
Proof.
  split.
  - intros Hne. apply set_choose_L in Hne as [s Hs].
    apply elem_of_missing_map in Hs as (r & Hr & _ & Hm). by exists r.
  - intros (r & Hr & Hm) E.
    assert (Hin : short_code r ∈ missing_map_of cdisc)
      by (apply elem_of_missing_map; by exists r).
    rewrite E in Hin. by apply not_elem_of_empty in Hin.
Qed.

End RunOutcome.

(** X1: when a required column is absent from either frame the run raises
    [SystemExit] at once: nothing is written, logged or printed, the exit
    status is 1, and the message names a required column that the named
    file lacks (the DB file when that column is absent from it). *)
Theorem X1_schema_failure (db cdisc : DataFrame str) (w : World) :
  schema_ok db cdisc = false ->
  exists col,
    col ∈ required_columns /\
    (main db cdisc w).2 = w /\
    exit_status (main db cdisc w).1 = 1%Z /\
    (((col ∉ columns db) /\
      (main db cdisc w).1 =
      Raise (SystemExit ($"Missing column '" ++ col ++ $"' in DB file: " ++ DB_FILE))) \/
     ((col ∉ columns cdisc) /\ (col ∈ columns db) /\
      (main db cdisc w).1 =
      Raise (SystemExit ($"Missing column '" ++ col ++ $"' in CDISC file: " ++ CDISC_FILE)))).
Proof.
  intros Hs.
  destruct (schema_ok_false_validate db cdisc w Hs)
    as (col & Hin & [[Hn Hv]|(Hn & Hdb & Hv)]);
    exists col; rewrite (main_raise_validate _ _ _ _ Hv); cbn [fst snd exit_status];
    (split; [done|]); (split; [done|]); (split; [done|]); [by left|by right].
Qed.

Lemma X1_schema_failure_witness :
  exists col,
    col ∈ required_columns /\
    (main ex_db_no_visit ex_cdisc w0).2 = w0 /\
    exit_status (main ex_db_no_visit ex_cdisc w0).1 = 1%Z /\
    (((col ∉ columns ex_db_no_visit) /\
      (main ex_db_no_visit ex_cdisc w0).1 =
      Raise (SystemExit ($"Missing column '" ++ col ++ $"' in DB file: " ++ DB_FILE))) \/
     ((col ∉ columns ex_cdisc) /\ (col ∈ columns ex_db_no_visit) /\
      (main ex_db_no_visit ex_cdisc w0).1 =
      Raise (SystemExit ($"Missing column '" ++ col ++ $"' in CDISC file: " ++ CDISC_FILE)))).
Proof.
  apply (X1_schema_failure ex_db_no_visit ex_cdisc w0). vm_compute. reflexivity.
Defined.

(** X2: with the required columns present the run writes both outputs and
    then either returns normally, exactly when the primary frame has a row
    and some secondary row is mappable, or ends with [KeyError] on
    RECON_STATUS; the exit status is 0 in the first case only. *)
Theorem X2_completion (db cdisc : DataFrame str) (w : World) :
  schema_ok db cdisc = true ->
  ((main db cdisc w).1 = Ok tt \/
   (main db cdisc w).1 = Raise (KeyError $"RECON_STATUS")) /\
  ((main db cdisc w).1 = Ok tt <->
   rows db ≠ [] /\ exists r, r ∈ rows cdisc /\ mappable r) /\
  (exit_status (main db cdisc w).1 = 0%Z <-> (main db cdisc w).1 = Ok tt).
Proof.
  intros Hs. destruct (main_validated db cdisc w Hs) as (-> & _ & _).
  unfold summary_result. rewrite <- index_nonempty.
  rewrite <- (db_to_cdisc_has_status db cdisc), <- (cdisc_to_db_has_status db cdisc).
  destruct (decide ($"RECON_STATUS" ∈ columns (db_to_cdisc_df_of db cdisc))) as [H1|H1];
    [destruct (decide ($"RECON_STATUS" ∈ columns (cdisc_to_db_df_of db cdisc))) as [H2|H2]|];
    cbn [exit_status].
  - split; [by left|]. by split.
  - split; [by right|]. split; [split; [done|intros [_ ?]; done]|done].
  - split; [by right|]. split; [split; [done|intros [? _]; done]|done].
Qed.

Lemma X2_completion_witness :
  ((main ex_db ex_cdisc w0).1 = Ok tt \/
   (main ex_db ex_cdisc w0).1 = Raise (KeyError $"RECON_STATUS")) /\
  ((main ex_db ex_cdisc w0).1 = Ok tt <->
   rows ex_db ≠ [] /\ exists r, r ∈ rows ex_cdisc /\ mappable r) /\
  (exit_status (main ex_db ex_cdisc w0).1 = 0%Z <-> (main ex_db ex_cdisc w0).1 = Ok tt).
Proof.
  apply (X2_completion ex_db ex_cdisc w0). vm_compute. reflexivity.
Defined.

(** X3: [to_csv] reaches the two output paths only, whatever the input:
    every other path, the two input files among them, holds afterwards the
    table it held before. *)
Theorem X3_other_files_untouched (db cdisc : DataFrame str) (w : World) (path : str) :
  path ≠ OUT_DB_TO_CDISC -> path ≠ OUT_CDISC_TO_DB ->
  files (main db cdisc w).2 !! path = files w !! path.
Proof.
  intros H1 H2. destruct (schema_ok db cdisc) eqn:Hs.
  - destruct (main_validated db cdisc w Hs) as (_ & -> & _).
    by rewrite !lookup_insert_ne by done.
  - destruct (schema_ok_false_validate db cdisc w Hs) as (col & _ & [[_ Hv]|(_ & _ & Hv)]);
      by rewrite (main_raise_validate _ _ _ _ Hv).
Qed.

Lemma X3_other_files_untouched_witness :
  files (main ex_db ex_cdisc w0).2 !! DB_FILE = files w0 !! DB_FILE.
Proof.
  apply (X3_other_files_untouched ex_db ex_cdisc w0 DB_FILE); discriminate.
Defined.

(** X4: with the required columns present the run adds exactly one warning
    to the log when some secondary row is unmappable, listing the sorted
    unmapped codes, and adds no warning when every row is mappable. *)
Theorem X4_single_warning (db cdisc : DataFrame str) (w : World) :
  schema_ok db cdisc = true ->
  ((exists r, r ∈ rows cdisc /\ ¬ mappable r) ->
   filter (fun e => e.1 = WARNING) (logfile (main db cdisc w).2) =
   filter (fun e => e.1 = WARNING) (logfile w) ++
   [(WARNING, MissingMappings (sorted (missing_map_of cdisc)))]) /\
  ((forall r, r ∈ rows cdisc -> mappable r) ->
   filter (fun e => e.1 = WARNING) (logfile (main db cdisc w).2) =
   filter (fun e => e.1 = WARNING) (logfile w)).
Proof.
  intros Hs. destruct (main_validated db cdisc w Hs) as (_ & _ & ->).
  split.
  - intros H. apply missing_map_nonempty in H. by rewrite bool_decide_eq_true_2.
  - intros H. rewrite bool_decide_eq_false_2; [by rewrite app_nil_r|].
    rewrite missing_map_nonempty. intros (r & Hr & Hm). by apply Hm, H.
Qed.

Lemma X4_single_warning_witness :
  ((exists r, r ∈ rows ex_cdisc /\ ¬ mappable r) ->
   filter (fun e => e.1 = WARNING) (logfile (main ex_db ex_cdisc w0).2) =
   filter (fun e => e.1 = WARNING) (logfile w0) ++
   [(WARNING, MissingMappings (sorted (missing_map_of ex_cdisc)))]) /\
  ((forall r, r ∈ rows ex_cdisc -> mappable r) ->
   filter (fun e => e.1 = WARNING) (logfile (main ex_db ex_cdisc w0).2) =
   filter (fun e => e.1 = WARNING) (logfile w0)).
Proof.
  apply (X4_single_warning ex_db ex_cdisc w0). vm_compute. reflexivity.
Defined.

Section StringOrder.

Lemma str_le_total a b : str_le a b \/ str_le b a.
Proof.
  unfold str_le. revert b. induction a as [|x a IH]; intros [|y b]; cbn [str_leb];
    [by left|by left|by right|].
  destruct (N.ltb_spec x y), (N.ltb_spec y x); try (by left); try (by right).
  apply IH.
Qed.

Lemma str_le_trans a b c : str_le a b -> str_le b c -> str_le a c.
Proof.
  unfold str_le. revert b c. induction a as [|x a IH]; intros [|y b] [|z c];
    cbn [str_leb]; try done.
  destruct (N.ltb_spec x y), (N.ltb_spec y x), (N.ltb_spec y z), (N.ltb_spec z y),
    (N.ltb_spec x z), (N.ltb_spec z x); try done; try lia.
  apply IH.
Qed.

#[local] Instance str_le_Total : Total str_le.
Proof. intros a b. apply str_le_total. Qed.

#[local] Instance str_le_Transitive : Transitive str_le.
Proof. intros a b c. apply str_le_trans. Qed.

Lemma sorted_spec (s : gset str) :
  StronglySorted str_le (sorted s) /\ NoDup (sorted s) /\
  forall x, x ∈ sorted s <-> x ∈ s.
Proof.
  unfold sorted. split; [apply StronglySorted_merge_sort; apply _|].
  split.
  - rewrite merge_sort_Permutation. apply NoDup_elements.
  - intros x. rewrite merge_sort_Permutation. apply elem_of_elements.
Qed.

End StringOrder.

Section NormalForm.

Lemma sub_ws_run_true_head t :
  match sub_ws_run true t with [] => True | d :: _ => isspace d = false end.
Proof.
  induction t as [|c t IH]; cbn [sub_ws_run]; [done|].
  destruct (isspace c) eqn:E; [exact IH|exact E].
Qed.

Lemma sub_ws_run_single_spaced b s : single_spaced (sub_ws_run b s) = true.
Proof.
  revert b. induction s as [|c t IH]; intros b; cbn [sub_ws_run]; [done|].
  destruct (isspace c) eqn:E.
  - destruct b; [apply IH|]. cbn [single_spaced]. rewrite IH.
    pose proof (sub_ws_run_true_head t) as Hh.
    destruct (sub_ws_run true t) as [|d u]; [done|]. by rewrite Hh.
  - cbn [single_spaced]. by rewrite E, IH.
Qed.

Lemma sub_ws_run_fixed b s :
  single_spaced s = true ->
  (b = true -> match s with [] => True | d :: _ => isspace d = false end) ->
  sub_ws_run b s = s.
Proof.
  revert b. induction s as [|c t IH]; intros b Hs Hb; [done|].
  cbn [single_spaced] in Hs. apply andb_true_iff in Hs as [Hc Ht].
  cbn [sub_ws_run]. destruct (isspace c) eqn:E.
  - cbn [negb orb] in Hc. apply andb_true_iff in Hc as [Hc Hd].
    apply N.eqb_eq in Hc. subst c.
    destruct b; [specialize (Hb eq_refl); congruence|].
    f_equal. apply IH; [done|]. intros _.
    destruct t as [|d u]; [done|]. by apply negb_true_iff in Hd.
  - f_equal. by apply IH.
Qed.

Lemma norm_normalized x : normalized (norm x).
Proof.
  split; [apply norm_trimmed|].
  destruct x as [v|]; [|done]. apply sub_ws_run_single_spaced.
Qed.

Lemma norm_of_normalized s : normalized s -> norm (Some s) = s.
Proof.
  intros [Ht Hs]. cbn [norm]. rewrite (strip_of_trimmed s Ht).
  apply sub_ws_run_fixed; [done|discriminate].
Qed.

End NormalForm.

Section UnmappedRows.

Lemma mappable_only_counts cdisc :
  cdisc_counts_of (mappable_only cdisc) = cdisc_counts_of cdisc.
Proof.
  rewrite !cdisc_counts_of_keys. unfold mappable_only. cbn [rows].
  by rewrite omap_cdisc_key_filter.
Qed.

Lemma mappable_only_schema db cdisc :
  schema_ok db (mappable_only cdisc) = schema_ok db cdisc.
Proof. reflexivity. Qed.

End UnmappedRows.

(** X5: the list of unmapped codes that the run reports is in ascending
    string order, has no duplicates, and holds exactly the normalized short
    codes of the secondary rows that the category table does not map. *)
Theorem X5_unmapped_codes_report (cdisc : DataFrame str) :
  StronglySorted str_le (sorted (missing_map_of cdisc)) /\
  NoDup (sorted (missing_map_of cdisc)) /\
  forall s, s ∈ sorted (missing_map_of cdisc) <->
            exists r, r ∈ rows cdisc /\ short_code r = s /\ ¬ mappable r.
Proof.
  destruct (sorted_spec (missing_map_of cdisc)) as (H1 & H2 & H3).
  split; [done|]. split; [done|]. intros s. rewrite H3. apply elem_of_missing_map.
Qed.

(** X6: unmappable secondary rows leave no trace in the outputs: the run
    writes the same two files as on the secondary frame without them. *)
Theorem X6_unmapped_rows_ignored (db cdisc : DataFrame str) (w : World) :
  schema_ok db cdisc = true ->
  files (main db cdisc w).2 = files (main db (mappable_only cdisc) w).2.
Proof.
  intros Hs.
  destruct (main_validated db cdisc w Hs) as (_ & -> & _).
  destruct (main_validated db (mappable_only cdisc) w Hs) as (_ & -> & _).
  unfold db_to_cdisc_df_of, cdisc_to_db_df_of. by rewrite mappable_only_counts.
Qed.

Lemma X6_unmapped_rows_ignored_witness :
  files (main ex_db ex_cdisc w0).2 = files (main ex_db (mappable_only ex_cdisc) w0).2.
Proof.
  apply (X6_unmapped_rows_ignored ex_db ex_cdisc w0). vm_compute. reflexivity.
Defined.

(** X7: the values that [norm] returns are exactly its fixed points: a
    string is left unchanged by [norm] if and only if it neither starts nor
    ends with whitespace and all its whitespace is single spaces; [norm]
    always returns such a string. *)
Theorem X7_norm_normal_form :
  (forall x, normalized (norm x)) /\
  (forall s, norm (Some s) = s <-> normalized s).
Proof.
  split; [apply norm_normalized|]. intros s. split.
  - intros <-. apply norm_normalized.
  - apply norm_of_normalized.
Qed.

Section RawRows.

Lemma count_key_omap (k : Key) (l : list (gmap str str)) :
  count_key k (omap cdisc_key l) =
  length (filter (fun r => cdisc_key r = Some k) l).
Proof.
  unfold count_key. induction l as [|r l IH]; [done|].
  rewrite omap_cons_eq, filter_cons.
  destruct (cdisc_key r) as [k'|] eqn:E.
  - rewrite filter_cons.
    destruct (decide (k' = k)) as [->|Hne].
    + rewrite decide_True by done. cbn [length]. by rewrite IH.
    + rewrite decide_False by congruence. done.
  - rewrite decide_False by done. done.
Qed.

Lemma p1_count_get idx k : p1_count idx k = dict_get idx k.
Proof.
  unfold p1_count, dict_get. destruct (decide (k ∈ dom idx)) as [H|H]; [done|].
  apply not_elem_of_dom in H. by rewrite H.
Qed.

Lemma p1_status_available idx k :
  p1_status idx k = $"AVAILABLE_IN_CDISC" <-> k ∈ dom idx.
Proof.
  unfold p1_status. by destruct (decide (k ∈ dom idx)); split.
Qed.

Lemma p2_status_available idx k :
  p2_status idx k = $"AVAILABLE_IN_DB" <-> k ∈ dom idx.
Proof.
  unfold p2_status. by destruct (decide (k ∈ dom idx)); split.
Qed.

Lemma db_index_dom db k :
  k ∈ dom (db_counts_of db) <-> exists r, r ∈ rows db /\ db_key r = k.
Proof.
  rewrite db_counts_of_keys, size_of_keys_dom.
  change (map ?f ?l) with (f <$> l). rewrite list_elem_of_fmap.
  split; intros (r & H1 & H2); exists r; by split.
Qed.

End RawRows.

(** X8: read off the raw rows, the first pass marks the primary record at
    position [i] AVAILABLE_IN_CDISC exactly when some secondary row has a
    mapped category and the same composite key, and the count it attaches
    is the number of such secondary rows. *)
Theorem X8_pass1_by_raw_rows (db cdisc : DataFrame str) (w : World)
    (i : nat) (r : gmap str str) :
  schema_ok db cdisc = true ->
  rows db !! i = Some r ->
  exists F o,
    files (main db cdisc w).2 !! OUT_DB_TO_CDISC = Some F /\
    rows F !! i = Some o /\
    (o !! $"RECON_STATUS" = Some (CStr $"AVAILABLE_IN_CDISC") <->
     exists r', r' ∈ rows cdisc /\ cdisc_key r' = Some (db_key r)) /\
    o !! $"CDISC_ROW_COUNT_FOR_KEY" =
    Some (CInt (length (filter (fun r' => cdisc_key r' = Some (db_key r)) (rows cdisc)))).
Proof.
  intros Hs Hr. exists (db_to_cdisc_df_of db cdisc), (p1_out (cdisc_counts_of cdisc) r).
  split; [by apply main_out1|]. split; [by apply p1_row_lookup|].
  rewrite p1_out_status, p1_out_count, p1_count_get. split.
  - rewrite <- cdisc_index_dom, <- p1_status_available.
    split; [by intros [= ->]|by intros ->].
  - by rewrite cdisc_counts_of_keys, size_of_keys_get, count_key_omap.
Qed.

Lemma X8_pass1_by_raw_rows_witness :
  exists F o,
    files (main ex_db ex_cdisc w0).2 !! OUT_DB_TO_CDISC = Some F /\
    rows F !! 0 = Some o /\
    (o !! $"RECON_STATUS" = Some (CStr $"AVAILABLE_IN_CDISC") <->
     exists r', r' ∈ rows ex_cdisc /\ cdisc_key r' = Some (db_key ex_row_db)) /\
    o !! $"CDISC_ROW_COUNT_FOR_KEY" =
    Some (CInt (length (filter (fun r' => cdisc_key r' = Some (db_key ex_row_db))
                               (rows ex_cdisc)))).
Proof.
  apply (X8_pass1_by_raw_rows ex_db ex_cdisc w0 0 ex_row_db);
    vm_compute; reflexivity.
Defined.

(** X9: every row of the first output has lost the three helper columns
    USUBJID_N, VISIT_N and QSCAT_FULL_N, also when the input had columns of
    those names, and its RECON_STATUS and COMMENT are one of the two pairs
    (AVAILABLE_IN_CDISC, FOUND_IN_CDISC) and (MISSING_IN_CDISC,
    NO_MATCHING_CDISC_RECORD_KEY), whatever the input held under them. *)
Theorem X9_pass1_columns (db cdisc : DataFrame str) (w : World) :
  schema_ok db cdisc = true ->
  exists F,
    files (main db cdisc w).2 !! OUT_DB_TO_CDISC = Some F /\
    forall o, o ∈ rows F ->
      o !! $"USUBJID_N" = None /\ o !! $"VISIT_N" = None /\
      o !! $"QSCAT_FULL_N" = None /\
      ((o !! $"RECON_STATUS" = Some (CStr $"AVAILABLE_IN_CDISC") /\
        o !! $"COMMENT" = Some (CStr $"FOUND_IN_CDISC")) \/
       (o !! $"RECON_STATUS" = Some (CStr $"MISSING_IN_CDISC") /\
        o !! $"COMMENT" = Some (CStr $"NO_MATCHING_CDISC_RECORD_KEY"))).
Proof.
  intros Hs. exists (db_to_cdisc_df_of db cdisc). split; [by apply main_out1|].
  intros o Ho. apply p1_row_elem in Ho as (r & _ & ->).
  rewrite p1_out_status, p1_out_comment.
  split; [|split; [|split]].
  - unfold p1_out, helper_columns. cbn [foldr]. apply lookup_delete_eq.
  - unfold p1_out, helper_columns. cbn [foldr].
    rewrite lookup_delete_ne by discriminate. apply lookup_delete_eq.
  - unfold p1_out, helper_columns. cbn [foldr].
    rewrite !lookup_delete_ne by discriminate. apply lookup_delete_eq.
  - unfold p1_status, p1_comment.
    destruct (decide (db_key r ∈ dom (cdisc_counts_of cdisc))); [by left|by right].
Qed.

Lemma X9_pass1_columns_witness :
  exists F,
    files (main ex_db ex_cdisc w0).2 !! OUT_DB_TO_CDISC = Some F /\
    forall o, o ∈ rows F ->
      o !! $"USUBJID_N" = None /\ o !! $"VISIT_N" = None /\
      o !! $"QSCAT_FULL_N" = None /\
      ((o !! $"RECON_STATUS" = Some (CStr $"AVAILABLE_IN_CDISC") /\
        o !! $"COMMENT" = Some (CStr $"FOUND_IN_CDISC")) \/
       (o !! $"RECON_STATUS" = Some (CStr $"MISSING_IN_CDISC") /\
        o !! $"COMMENT" = Some (CStr $"NO_MATCHING_CDISC_RECORD_KEY"))).
Proof.
  apply (X9_pass1_columns ex_db ex_cdisc w0). vm_compute. reflexivity.
Defined.

(** X10: the two passes agree.  A primary record is AVAILABLE_IN_CDISC in
    the first output exactly when the second output has a row for its
    composite key, and that row is then AVAILABLE_IN_DB; a row of the
    second output is AVAILABLE_IN_DB exactly when some primary record has
    its key. *)
Theorem X10_passes_agree (db cdisc : DataFrame str) (w : World) :
  schema_ok db cdisc = true ->
  exists F1 F2,
    files (main db cdisc w).2 !! OUT_DB_TO_CDISC = Some F1 /\
    files (main db cdisc w).2 !! OUT_CDISC_TO_DB = Some F2 /\
    (forall o1, o1 ∈ rows F1 ->
       (o1 !! $"RECON_STATUS" = Some (CStr $"AVAILABLE_IN_CDISC") <->
        exists o2, o2 ∈ rows F2 /\ p2_key o2 = p1_key o1) /\
       (forall o2, o2 ∈ rows F2 -> p2_key o2 = p1_key o1 ->
          o2 !! $"RECON_STATUS" = Some (CStr $"AVAILABLE_IN_DB"))) /\
    (forall o2, o2 ∈ rows F2 ->
       o2 !! $"RECON_STATUS" = Some (CStr $"AVAILABLE_IN_DB") <->
       exists o1, o1 ∈ rows F1 /\ p1_key o1 = p2_key o2).
Proof.
  intros Hs. exists (db_to_cdisc_df_of db cdisc), (cdisc_to_db_df_of db cdisc).
  split; [by apply main_out1|]. split; [by apply main_out2|].
  assert (Hrow2 : forall k, k ∈ dom (cdisc_counts_of cdisc) <->
            exists o2, o2 ∈ rows (cdisc_to_db_df_of db cdisc) /\ p2_key o2 = k).
  { intros k. split.
    - intros Hk. apply elem_of_dom in Hk as [n Hn].
      exists (pass2_row (dom (db_counts_of db)) (db_counts_of db) (k, n)).
      destruct (pass2_row_lookups (db_counts_of db) k n) as (Hkey & _).
      split; [|done]. rewrite cdisc_to_db_rows. change (map ?f ?l) with (f <$> l).
      apply list_elem_of_fmap. exists (k, n). split; [done|].
      by apply elem_of_dict_items.
    - intros (o2 & Ho2 & <-). apply p2_row_elem in Ho2 as (k & n & Hn & ->).
      destruct (pass2_row_lookups (db_counts_of db) k n) as (-> & _).
      apply elem_of_dom. by eauto. }
  assert (Hrow1 : forall k, k ∈ dom (db_counts_of db) <->
            exists o1, o1 ∈ rows (db_to_cdisc_df_of db cdisc) /\ p1_key o1 = k).
  { intros k. rewrite db_index_dom, db_to_cdisc_rows. split.
    - intros (r & Hr & <-). exists (p1_out (cdisc_counts_of cdisc) r).
      split; [|apply p1_out_key]. change (map ?f ?l) with (f <$> l).
      apply list_elem_of_fmap. by exists r.
    - intros (o1 & Ho1 & <-). change (map ?f ?l) with (f <$> l) in Ho1.
      apply list_elem_of_fmap in Ho1 as (r & -> & Hr). exists r.
      split; [done|]. by rewrite p1_out_key. }
  split.
  - intros o1 Ho1. split.
    + rewrite <- Hrow2. apply p1_row_elem in Ho1 as (r & _ & ->).
      rewrite p1_out_status, p1_out_key, <- p1_status_available.
      split; [by intros [= ->]|by intros ->].
    + intros o2 Ho2 Hk. apply p2_row_elem in Ho2 as (k & n & Hn & ->).
      destruct (pass2_row_lookups (db_counts_of db) k n) as (Hkey & -> & _).
      rewrite Hkey in Hk. subst k. do 2 f_equal. apply p2_status_available.
      apply Hrow1. by exists o1.
  - intros o2 Ho2. rewrite <- Hrow1.
    apply p2_row_elem in Ho2 as (k & n & Hn & ->).
    destruct (pass2_row_lookups (db_counts_of db) k n) as (-> & -> & _).
    rewrite <- p2_status_available. split; [by intros [= ->]|by intros ->].
Qed.

Lemma X10_passes_agree_witness :
  exists F1 F2,
    files (main ex_db ex_cdisc w0).2 !! OUT_DB_TO_CDISC = Some F1 /\
    files (main ex_db ex_cdisc w0).2 !! OUT_CDISC_TO_DB = Some F2 /\
    (forall o1, o1 ∈ rows F1 ->
       (o1 !! $"RECON_STATUS" = Some (CStr $"AVAILABLE_IN_CDISC") <->
        exists o2, o2 ∈ rows F2 /\ p2_key o2 = p1_key o1) /\
       (forall o2, o2 ∈ rows F2 -> p2_key o2 = p1_key o1 ->
          o2 !! $"RECON_STATUS" = Some (CStr $"AVAILABLE_IN_DB"))) /\
    (forall o2, o2 ∈ rows F2 ->
       o2 !! $"RECON_STATUS" = Some (CStr $"AVAILABLE_IN_DB") <->
       exists o1, o1 ∈ rows F1 /\ p1_key o1 = p2_key o2).
Proof.
  apply (X10_passes_agree ex_db ex_cdisc w0). vm_compute. reflexivity.
Defined.

Section Summary.

Lemma print_run ln w :
  print ln w = (Ok tt, mkWorld (files w) (logfile w) (stdout w ++ [ln])).
Proof. reflexivity. Qed.

Lemma mret_run {A} (a : A) w : (mret a : M A) w = (Ok a, w).
Proof. reflexivity. Qed.

Lemma logging_run lv m w :
  logging lv m w = (Ok tt, mkWorld (files w) (logfile w ++ [(lv, m)]) (stdout w)).
Proof. reflexivity. Qed.

Lemma summary_ok_world mm F1 F2 w :
  $"RECON_STATUS" ∈ columns F1 -> $"RECON_STATUS" ∈ columns F2 ->
  let a := length (rows F1) in
  let b := count_eq (map (fun r => r !! $"RECON_STATUS") (rows F1)) $"MISSING_IN_CDISC" in
  let c := length (rows F2) in
  let d := count_eq (map (fun r => r !! $"RECON_STATUS") (rows F2)) $"MISSING_IN_DB" in
  summary mm F1 F2 w =
  (Ok tt, mkWorld (files w) (logfile w ++ [(INFO, Completed a b c d)])
                  (stdout w ++ summary_lines mm a b c d)).
Proof.
  intros H1 H2 a b c d. unfold summary. rewrite bind_run. unfold getitem.
  rewrite decide_True by done. cbn [mret M_ret]. rewrite bind_run.
  rewrite decide_True by done. cbn [mret M_ret].
  fold a b c d. generalize a b c d. clear. intros a b c d.
  unfold summary_lines.
  generalize (sorted mm) as codes. intros codes.
  generalize OUT_DB_TO_CDISC OUT_CDISC_TO_DB LOG_FILE. intros p1 p2 p3.
  do 5 (rewrite (bind_ok _ _ _ _ _ (print_run _ _))).
  destruct (bool_decide (mm ≠ ∅)); cbn [when].
  - do 4 (rewrite (bind_ok _ _ _ _ _ (print_run _ _))).
    rewrite logging_run. cbn [files logfile stdout].
    by rewrite <- !app_assoc.
  - rewrite (bind_ok _ _ _ _ _ (mret_run tt _)).
    do 3 (rewrite (bind_ok _ _ _ _ _ (print_run _ _))).
    rewrite logging_run. cbn [files logfile stdout].
    by rewrite <- !app_assoc.
Qed.

Lemma count_missing_p1 (idx : gmap Key nat) (l : list (gmap str str)) :
  count_eq (map (fun o => o !! $"RECON_STATUS") (map (p1_out idx) l))
           $"MISSING_IN_CDISC" =
  length (filter (fun r => db_key r ∉ dom idx) l).
Proof.
  unfold count_eq. induction l as [|r l IH]; [done|].
  cbn [map]. rewrite !filter_cons, p1_out_status. unfold p1_status.
  destruct (decide (db_key r ∈ dom idx)) as [H|H].
  - rewrite decide_False by discriminate.
    rewrite decide_False by (intros Hn; by apply Hn). exact IH.
  - rewrite decide_True by done. rewrite decide_True by done.
    cbn [length]. by rewrite IH.
Qed.

Lemma count_missing_p2 (idx : gmap Key nat) (items : list (Key * nat)) :
  count_eq (map (fun o => o !! $"RECON_STATUS") (map (pass2_row (dom idx) idx) items))
           $"MISSING_IN_DB" =
  length (filter (fun kn => kn.1 ∉ dom idx) items).
Proof.
  unfold count_eq. induction items as [|[k n] l IH]; [done|].
  cbn [map]. rewrite !filter_cons. cbn [fst].
  destruct (pass2_row_lookups idx k n) as (_ & -> & _). unfold p2_status.
  destruct (decide (k ∈ dom idx)) as [H|H].
  - rewrite decide_False by discriminate.
    rewrite decide_False by (intros Hn; by apply Hn). exact IH.
  - rewrite decide_True by done. rewrite decide_True by done.
    cbn [length]. by rewrite IH.
Qed.

Lemma filter_map_to_list (P : Key * nat -> Prop) `{!forall x, Decision (P x)}
    (m : gmap Key nat) :
  filter P (map_to_list m) ≡ₚ map_to_list (filter P m).
Proof.
  apply NoDup_Permutation.
  - apply NoDup_filter, NoDup_map_to_list.
  - apply NoDup_map_to_list.
  - intros [k n]. rewrite list_elem_of_filter, !elem_of_map_to_list.
    rewrite map_lookup_filter_Some. tauto.
Qed.

Lemma dict_items_filter_length (P : Key * nat -> Prop) `{!forall x, Decision (P x)}
    (m : gmap Key nat) :
  length (filter P (dict_items m)) = size (filter P m).
Proof.
  assert (Hp : filter P (dict_items m) ≡ₚ filter P (map_to_list m))
    by (by rewrite dict_items_perm).
  by rewrite Hp, filter_map_to_list, length_map_to_list.
Qed.

Lemma dict_items_length (m : gmap Key nat) : length (dict_items m) = size m.
Proof. by rewrite dict_items_perm, length_map_to_list. Qed.

Lemma main_ok_world db cdisc w :
  schema_ok db cdisc = true ->
  (main db cdisc w).1 = Ok tt ->
  let mm := missing_map_of cdisc in
  let a := length (rows db) in
  let b := length (filter (fun r => db_key r ∉ dom (cdisc_counts_of cdisc)) (rows db)) in
  let c := size (cdisc_counts_of cdisc) in
  let d := size (filter (fun kn => kn.1 ∉ dom (db_counts_of db)) (cdisc_counts_of cdisc)) in
  logfile (main db cdisc w).2 =
    logfile w ++
    (if bool_decide (mm ≠ ∅) then [(WARNING, MissingMappings (sorted mm))] else []) ++
    [(INFO, Completed a b c d)] /\
  stdout (main db cdisc w).2 = stdout w ++ summary_lines mm a b c d.
Proof.
  intros Hs Hok mm a b c d.
  destruct (main_validated db cdisc w Hs) as (Hr & _ & _).
  rewrite Hok in Hr. unfold summary_result in Hr.
  destruct (decide ($"RECON_STATUS" ∈ columns (db_to_cdisc_df_of db cdisc)))
    as [H1|]; [|done].
  destruct (decide ($"RECON_STATUS" ∈ columns (cdisc_to_db_df_of db cdisc)))
    as [H2|]; [|done].
  clear Hr Hok. unfold main.
  rewrite (bind_ok _ _ _ _ _ (validate_ok db cdisc w Hs)). fold mm.
  assert (Hw : when (bool_decide (mm ≠ ∅))
                    (logging WARNING (MissingMappings (sorted mm))) w =
               (Ok tt, mkWorld (files w)
                  (logfile w ++ (if bool_decide (mm ≠ ∅)
                                 then [(WARNING, MissingMappings (sorted mm))] else []))
                  (stdout w))).
  { destruct (bool_decide (mm ≠ ∅)); cbn [when]; [done|].
    rewrite app_nil_r. by destruct w. }
  rewrite (bind_ok _ _ _ _ _ Hw).
  rewrite (bind_ok _ _ _ _ _ (to_csv_run _ _ _)).
  rewrite (bind_ok _ _ _ _ _ (to_csv_run _ _ _)).
  rewrite (summary_ok_world mm _ _ _ H1 H2). cbn [snd files logfile stdout].
  rewrite db_to_cdisc_rows, cdisc_to_db_rows, !length_map.
  rewrite count_missing_p1, count_missing_p2.
  rewrite dict_items_length, dict_items_filter_length.
  by rewrite <- app_assoc.
Qed.

End Summary.

(** X11: a run that returns normally ends its log with one INFO entry
    after the warning, if any, and prints the summary; both carry the number
    of primary rows, the number of primary rows whose key is not in the
    secondary index, the number of keys of the secondary index, and the
    number of those keys that are not in the primary index. *)
Theorem X11_summary_totals (db cdisc : DataFrame str) (w : World) :
  schema_ok db cdisc = true ->
  (main db cdisc w).1 = Ok tt ->
  exists a b c d,
    a = length (rows db) /\
    b = length (filter (fun r => db_key r ∉ dom (cdisc_counts_of cdisc)) (rows db)) /\
    c = size (cdisc_counts_of cdisc) /\
    d = size (filter (fun kn => kn.1 ∉ dom (db_counts_of db)) (cdisc_counts_of cdisc)) /\
    logfile (main db cdisc w).2 =
      logfile w ++
      (if bool_decide (missing_map_of cdisc ≠ ∅)
       then [(WARNING, MissingMappings (sorted (missing_map_of cdisc)))] else []) ++
      [(INFO, Completed a b c d)] /\
    stdout (main db cdisc w).2 =
      stdout w ++ summary_lines (missing_map_of cdisc) a b c d.
Proof.
  intros Hs Hok. destruct (main_ok_world db cdisc w Hs Hok) as [Hl Ho].
  do 4 eexists. split; [done|]. split; [done|]. split; [done|]. split; [done|].
  by split.
Qed.

Lemma X11_summary_totals_witness :
  exists a b c d,
    a = length (rows ex_db) /\
    b = length (filter (fun r => db_key r ∉ dom (cdisc_counts_of ex_cdisc)) (rows ex_db)) /\
    c = size (cdisc_counts_of ex_cdisc) /\
    d = size (filter (fun kn => kn.1 ∉ dom (db_counts_of ex_db)) (cdisc_counts_of ex_cdisc)) /\
    logfile (main ex_db ex_cdisc w0).2 =
      logfile w0 ++
      (if bool_decide (missing_map_of ex_cdisc ≠ ∅)
       then [(WARNING, MissingMappings (sorted (missing_map_of ex_cdisc)))] else []) ++
      [(INFO, Completed a b c d)] /\
    stdout (main ex_db ex_cdisc w0).2 =
      stdout w0 ++ summary_lines (missing_map_of ex_cdisc) a b c d.
Proof.
  apply (X11_summary_totals ex_db ex_cdisc w0); vm_compute; reflexivity.
Defined.

(** X12: every row of the second output has exactly the seven columns
    USUBJID, VISIT, QSCAT_FULL, RECON_STATUS, CDISC_ROW_COUNT_FOR_KEY,
    DB_ROW_COUNT_FOR_KEY and COMMENT, and its RECON_STATUS and COMMENT are
    one of the two pairs (AVAILABLE_IN_DB, FOUND_IN_DB) and (MISSING_IN_DB,
    NO_MATCHING_DB_RECORD_KEY). *)
Theorem X12_pass2_columns (db cdisc : DataFrame str) (w : World) :
  schema_ok db cdisc = true ->
  exists F,
    files (main db cdisc w).2 !! OUT_CDISC_TO_DB = Some F /\
    forall o, o ∈ rows F ->
      dom o = pass2_columns /\
      ((o !! $"RECON_STATUS" = Some (CStr $"AVAILABLE_IN_DB") /\
        o !! $"COMMENT" = Some (CStr $"FOUND_IN_DB")) \/
       (o !! $"RECON_STATUS" = Some (CStr $"MISSING_IN_DB") /\
        o !! $"COMMENT" = Some (CStr $"NO_MATCHING_DB_RECORD_KEY"))).
Proof.
  intros Hs. exists (cdisc_to_db_df_of db cdisc). split; [by apply main_out2|].
  intros o Ho. apply p2_row_elem in Ho as (k & n & _ & ->).
  rewrite pass2_row_eq. split.
  - by rewrite dom_list_to_map_L.
  - cbn [list_to_map foldr fst snd uncurry].
    rewrite !lookup_insert_ne by discriminate. rewrite !lookup_insert_eq.
    rewrite !(lookup_insert_ne _ _ $"COMMENT") by discriminate.
    rewrite lookup_insert_eq. unfold p2_status.
    destruct (decide (k ∈ dom (db_counts_of db))); [by left|by right].
Qed.

Lemma X12_pass2_columns_witness :
  exists F,
    files (main ex_db ex_cdisc w0).2 !! OUT_CDISC_TO_DB = Some F /\
    forall o, o ∈ rows F ->
      dom o = pass2_columns /\
      ((o !! $"RECON_STATUS" = Some (CStr $"AVAILABLE_IN_DB") /\
        o !! $"COMMENT" = Some (CStr $"FOUND_IN_DB")) \/
       (o !! $"RECON_STATUS" = Some (CStr $"MISSING_IN_DB") /\
        o !! $"COMMENT" = Some (CStr $"NO_MATCHING_DB_RECORD_KEY"))).
Proof.
  apply (X12_pass2_columns ex_db ex_cdisc w0). vm_compute. reflexivity.
Defined.

Section Identifiers.

Lemma single_spaced_app s t :
  single_spaced s = true -> single_spaced t = true ->
  match t with [] => True | d :: _ => isspace d = false end ->
  single_spaced (s ++ t) = true.
Proof.
  intros Hs Ht Hd. induction s as [|c u IH]; [done|].
  cbn [single_spaced app] in *. apply andb_true_iff in Hs as [Hc Hu].
  rewrite (IH Hu), andb_true_r.
  destruct u as [|e u]; [|exact Hc]. cbn [app].
  destruct t as [|d t]; [exact Hc|]. rewrite Hd. cbn [negb].
  destruct (isspace c); [|done]. cbn [negb orb] in *.
  apply andb_true_iff in Hc as [Hc _]. by rewrite Hc.
Qed.

Lemma trimmed_snoc s d : trimmed s -> isspace d = false -> trimmed (s ++ [d]).
Proof.
  intros [|c Hc|c u e Hc He] Hd; cbn [app].
  - by constructor.
  - by apply (trimmed_ends c [] d).
  - by apply (trimmed_ends c (u ++ [e]) d).
Qed.

Lemma normalized_dot_zero s : normalized s -> normalized (s ++ $".0").
Proof.
  intros [Ht Hs]. split.
  - change ($".0") with ([46%N] ++ [48%N]). rewrite app_assoc.
    apply trimmed_snoc; [by apply trimmed_snoc|done].
  - by apply single_spaced_app.
Qed.

Lemma lstrip_length s : length (lstrip s) <= length s.
Proof.
  induction s as [|c t IH]; cbn [lstrip]; [done|].
  destruct (isspace c); cbn [length]; lia.
Qed.

Lemma strip_length s : length (strip s) <= length s.
Proof.
  unfold strip, rstrip. rewrite length_rev.
  pose proof (lstrip_length (rev (lstrip s))) as H1.
  pose proof (lstrip_length s) as H2. rewrite length_rev in H1. lia.
Qed.

Lemma sub_ws_run_length b s : length (sub_ws_run b s) <= length s.
Proof.
  revert b. induction s as [|c t IH]; intros b; cbn [sub_ws_run]; [done|].
  destruct (isspace c); [destruct b|]; cbn [length];
    [pose proof (IH true)|pose proof (IH true)|pose proof (IH false)]; lia.
Qed.

Lemma lstrip_elem s c : c ∈ lstrip s -> c ∈ s.
Proof.
  induction s as [|a t IH]; cbn [lstrip]; [done|].
  destruct (isspace a); [intros H; right; by apply IH|done].
Qed.

Lemma elem_of_rev_iff (l : str) c : c ∈ rev l <-> c ∈ l.
Proof. rewrite !list_elem_of_In. symmetry. apply in_rev. Qed.

Lemma strip_elem s c : c ∈ strip s -> c ∈ s.
Proof.
  unfold strip, rstrip. rewrite elem_of_rev_iff. intros H.
  apply lstrip_elem in H. rewrite elem_of_rev_iff in H. by apply lstrip_elem.
Qed.

Lemma sub_ws_run_elem b s c :
  c ∈ sub_ws_run b s -> c = 32%N \/ (c ∈ s /\ isspace c = false).
Proof.
  revert b. induction s as [|a t IH]; intros b; cbn [sub_ws_run].
  - intros H. by apply elem_of_nil in H.
  - destruct (isspace a) eqn:E.
    + destruct b.
      * intros H. apply IH in H as [?|[? ?]]; [by left|right; split; [by right|done]].
      * rewrite elem_of_cons. intros [?|H]; [by left|].
        apply IH in H as [?|[? ?]]; [by left|right; split; [by right|done]].
    + rewrite elem_of_cons. intros [->|H]; [right; split; [by left|done]|].
      apply IH in H as [?|[? ?]]; [by left|right; split; [by right|done]].
Qed.

End Identifiers.

(** X13: the float artifact is absorbed: for a value whose normalized text
    [s] does not end with [".0"], the identifier [s ++ ".0"] normalizes to
    the same identifier, [s]. *)
Theorem X13_float_suffix_absorbed (x : option str) :
  endswith (norm x) $".0" = false ->
  norm_id (Some (norm x ++ $".0")) = norm_id x /\ norm_id x = norm x.
Proof.
  intros H. unfold norm_id at 2 3. rewrite H. split; [|done].
  unfold norm_id. rewrite (norm_of_normalized _ (normalized_dot_zero _ (norm_normalized x))).
  rewrite endswith_app. unfold drop_last2. rewrite length_app.
  change (length $".0") with 2.
  replace (length (norm x) + 2 - 2) with (length (norm x)) by lia.
  by rewrite take_app_length.
Qed.

Lemma X13_float_suffix_absorbed_witness :
  norm_id (Some (norm (Some $" SUBJ-001 ") ++ $".0")) = norm_id (Some $" SUBJ-001 ") /\
  norm_id (Some $" SUBJ-001 ") = norm (Some $" SUBJ-001 ").
Proof.
  apply (X13_float_suffix_absorbed (Some $" SUBJ-001 ")). vm_compute. reflexivity.
Defined.

(** X14: [norm] never lengthens its input and invents no character but the
    space: each character of the result is a space or a character of the
    input that is not whitespace; [norm_id] is no longer than [norm]. *)
Theorem X14_norm_bounds (s : str) :
  length (norm (Some s)) <= length s /\
  length (norm_id (Some s)) <= length (norm (Some s)) /\
  forall c, c ∈ norm (Some s) -> c = 32%N \/ (c ∈ s /\ isspace c = false).
Proof.
  split; [|split].
  - cbn [norm]. unfold re_sub_ws.
    pose proof (sub_ws_run_length false (strip s)). pose proof (strip_length s). lia.
  - unfold norm_id, drop_last2. destruct (endswith _ _); [|done].
    rewrite length_take. lia.
  - intros c Hc. cbn [norm] in Hc. unfold re_sub_ws in Hc.
    apply sub_ws_run_elem in Hc as [?|[Hc ?]]; [by left|].
    right. split; [by apply strip_elem|done].
Qed.

(** X15: the QSCAT_FULL of every row of the second output is a full name of
    the category table; no short code and no empty category reaches it. *)
Theorem X15_pass2_category_names (db cdisc : DataFrame str) (w : World) :
  schema_ok db cdisc = true ->
  exists F,
    files (main db cdisc w).2 !! OUT_CDISC_TO_DB = Some F /\
    forall o, o ∈ rows F ->
      exists short, CDISC_QSCAT_TO_FULL !! short = Some (out_cell o $"QSCAT_FULL") /\
                    out_cell o $"QSCAT_FULL" ≠ [].
Proof.
  intros Hs. exists (cdisc_to_db_df_of db cdisc). split; [by apply main_out2|].
  intros o Ho. apply p2_row_elem in Ho as (k & n & Hn & ->).
  destruct (pass2_row_lookups (db_counts_of db) k n) as (Hkey & _).
  assert (Hq : out_cell (pass2_row (dom (db_counts_of db)) (db_counts_of db) (k, n))
                        $"QSCAT_FULL" = k.2).
  { rewrite <- Hkey at 2. done. }
  rewrite Hq.
  assert (Hd : k ∈ dom (cdisc_counts_of cdisc)) by (apply elem_of_dom; eauto).
  apply cdisc_index_dom in Hd as (r & _ & Hk).
  unfold cdisc_key in Hk.
  destruct (CDISC_QSCAT_TO_FULL !! short_code r) as [full|] eqn:E; [|done].
  injection Hk as <-. cbn [snd]. exists (short_code r).
  split; [done|]. by eapply category_names_nonempty.
Qed.

Lemma X15_pass2_category_names_witness :
  exists F,
    files (main ex_db ex_cdisc w0).2 !! OUT_CDISC_TO_DB = Some F /\
    forall o, o ∈ rows F ->
      exists short, CDISC_QSCAT_TO_FULL !! short = Some (out_cell o $"QSCAT_FULL") /\
                    out_cell o $"QSCAT_FULL" ≠ [].
Proof.
  apply (X15_pass2_category_names ex_db ex_cdisc w0). vm_compute. reflexivity.
Defined.
